(** * Interstate '76 classic .GEO importer

    A shallow embedding of [i76_geo_importer_batch.py]: the binary helpers,
    [parse_geo_classic], [build_mesh] and the batch loop of the import
    operator, followed by the properties of the decoder, of the fan
    triangulation, of the shared material cache and of the batch report. *)

From Stdlib Require Import NArith ZArith Lia Floats.
From Stdlib.Strings Require Import Byte Ascii String.
From Stdlib Require Import DecimalString.
From stdpp Require Import gmap strings list.

Open Scope N_scope.
Open Scope string_scope.
Open Scope list_scope.

(** ** Exceptions and results *)

(** The exceptions the module can raise or let escape.  [str_exn] is Python's
    [str(e)], which the batch loop stores in its error list. *)
Inductive exn : Type :=
  | ValueError (msg : string)
  | struct_error
  | IndexError
  | OSError (msg : string).

Definition str_exn (e : exn) : string :=
  match e with
  | ValueError msg => msg
  | struct_error => "unpack requires a buffer of 4 bytes"
  | IndexError => "list index out of range"
  | OSError msg => msg
  end.

Inductive res (A : Type) : Type :=
  | Ok (a : A)
  | Raise (e : exn).
Arguments Ok {A} a.
Arguments Raise {A} e.

Definition res_map {A B} (f : A -> B) (r : res A) : res B :=
  match r with Ok a => Ok (f a) | Raise e => Raise e end.

(** ** The file object

    A file opened with ["rb"] is read strictly forward, so the state of the
    file object is the list of bytes that have not been read yet.  A reader
    either raises or returns a value together with the rest of the stream. *)

Definition reader (A : Type) : Type := list byte -> res (A * list byte).

Definition ret {A} (a : A) : reader A := fun s => Ok (a, s).

Definition bind {A B} (m : reader A) (k : A -> reader B) : reader B :=
  fun s => match m s with
           | Ok (a, s') => k a s'
           | Raise e => Raise e
           end.

Definition raise {A} (e : exn) : reader A := fun _ => Raise e.

Notation "'let*' x ':=' m 'in' k" := (bind m (fun x => k))
  (at level 10, x pattern, m at level 100, k at level 200).

(** [for _ in range(n)] collecting one result per round. *)
Fixpoint replicateM {A} (n : nat) (m : reader A) : reader (list A) :=
  match n with
  | O => ret []
  | S n' => let* a := m in let* l := replicateM n' m in ret (a :: l)
  end.

(** [f.read(n)]: at most [n] bytes; a short read at the end of the file is
    not an error. *)
Definition f_read (n : nat) : reader (list byte) :=
  fun s => Ok (firstn n s, skipn n s).

(** ** Binary helpers *)

(** Little-endian value of a byte string. *)
Definition le_value (b : list byte) : N :=
  fold_right (fun x acc => Byte.to_N x + 256 * acc) 0 b.

(** [struct.unpack("<I", b)[0]]: the buffer must hold exactly four bytes. *)
Definition unpack_I (b : list byte) : res N :=
  if (length b =? 4)%nat then Ok (le_value b) else Raise struct_error.

(** The number of the format of precision [p] and largest exponent [em]
    that is nearest to [x], ties to even, infinity beyond the range; a
    number of the format comes back as it is, its mantissa aligned. *)
Definition round_to (p em : Z) (x : spec_float) : spec_float :=
  match x with
  | S754_finite s m e => binary_round p em s m e
  | _ => x
  end.

(** The binary32 number of a 32-bit pattern: sign, 8 bits of exponent and 23
    bits of fraction. *)
Definition binary32_of_bits (w : N) : spec_float :=
  let s := N.testbit w 31 in
  let e := N.land (N.shiftr w 23) 255 in
  let m := N.land w 8388607 in
  if (e =? 255)%N then
    if (m =? 0)%N then S754_infinity s else S754_nan
  else if (e =? 0)%N then
    match m with
    | N0 => S754_zero s
    | Npos p => S754_finite s p (-149)
    end
  else S754_finite s (N.succ_pos (m + 8388607)) (Z.of_N e - 150).

(** The binary32 value of a 32-bit pattern, as the binary64 number Python
    makes of it (every binary32 value is a binary64 value, so nothing is
    rounded). *)
Definition float_of_bits32 (w : N) : float :=
  SF2Prim (round_to prec emax (binary32_of_bits w)).

(** A Python float stored in a C [float], as Blender stores coordinates and
    angles, and read back: the nearest binary32 number. *)
Definition c_float (x : float) : float :=
  SF2Prim (round_to prec emax (round_to 24 128 (Prim2SF x))).

(** A binary64 number that is a binary32 number: narrowing and widening
    give it back. *)
Definition fits32 (x : spec_float) : Prop :=
  round_to prec emax (round_to 24 128 x) = x.

(** A number of at most half the largest binary32 number, 3.4028235e38 / 2,
    in magnitude. *)
Definition half_range (x : float) : bool :=
  PrimFloat.leb (PrimFloat.abs x) 0x1.fffffep+126%float.

(** [struct.unpack("<f", b)[0]]. *)
Definition unpack_f (b : list byte) : res float :=
  if (length b =? 4)%nat then Ok (float_of_bits32 (le_value b)) else Raise struct_error.

Definition lift {A} (r : res A) : reader A :=
  fun s => match r with Ok a => Ok (a, s) | Raise e => Raise e end.

Definition rU32 : reader N := let* b := f_read 4 in lift (unpack_I b).
Definition rF32 : reader float := let* b := f_read 4 in lift (unpack_f b).

(** [b.split(b"\x00", 1)[0]]: the bytes before the first NUL, all of them
    when there is none. *)
Fixpoint before_nul (b : list byte) : list byte :=
  match b with
  | [] => []
  | x :: r => if Byte.eqb x x00 then [] else x :: before_nul r
  end.

(** [.decode("ascii", "ignore")]: bytes above 127 are dropped. *)
Definition decode_ascii_ignore (b : list byte) : string :=
  string_of_list_byte (List.filter (fun x => (Byte.to_N x <? 128)%N) b).

Definition cstr (b : list byte) : string := decode_ascii_ignore (before_nul b).

Definition rCSTR (n : nat) : reader string :=
  let* b := f_read n in ret (cstr b).

Definition vec3 : Type := float * float * float.
Definition vec2 : Type := float * float.

Definition read_vec3 : reader vec3 :=
  let* x := rF32 in let* y := rF32 in let* z := rF32 in ret (x, y, z).
Definition read_vec2 : reader vec2 :=
  let* u := rF32 in let* v := rF32 in ret (u, v).

(** Python's [a or b] on strings. *)
Definition str_or (a b : string) : string :=
  match a with EmptyString => b | _ => a end.

(** ** The parsed model *)

(** One face corner [(vi, ni, (u, v))]. *)
Definition ref : Type := N * N * vec2.

Record face : Type := { tex : string; refs : list ref }.

(** The dictionary [parse_geo_classic] returns: its keys are ["name"],
    ["verts"] and ["faces"] and no other. *)
Record geo : Type := { name : string; verts : list vec3; faces : list face }.

(** [os.path.basename] (POSIX): what follows the last slash. *)
Fixpoint basename_from (acc : string) (p : string) : string :=
  match p with
  | EmptyString => acc
  | String c r =>
      if Ascii.eqb c "/"%char then basename_from EmptyString r
      else basename_from (acc ++ String c EmptyString) r
  end.
Definition basename (p : string) : string := basename_from EmptyString p.

Definition dec (n : N) : string := NilZero.string_of_uint (N.to_uint n).

(** ** [parse_geo_classic] *)

(** Lines 51 to 60: the fixed part of a face record; it yields the corner
    count and the texture name. *)
Definition face_header : reader (N * string) :=
  let* face_id := rU32 in
  let* nv := rU32 in
  let* _ := f_read 3 in
  let* _ := f_read 16 in
  let* _ := f_read 4 in
  let* _ := f_read 3 in
  let* t := rCSTR 13 in
  let* _ := f_read 4 in
  let* _ := f_read 4 in
  ret (nv, str_or t "i76_default").

(** Lines 64 to 67: one corner record. *)
Definition read_ref : reader ref :=
  let* vi := rU32 in
  let* ni := rU32 in
  let* uv := read_vec2 in
  ret (vi, ni, uv).

(** The body of the loop over faces. *)
Definition read_face : reader face :=
  let* h := face_header in
  let* rs := replicateM (N.to_nat (fst h)) read_ref in
  ret {| tex := snd h; refs := rs |}.

Definition counts_ok (vct fct : N) : bool :=
  ((1 <=? vct) && (vct <=? 2000000) && (1 <=? fct) && (fct <=? 2000000))%N.

(** Everything after the size test, as a reader of the file object. *)
Definition parse_body (path : string) : reader geo :=
  let* magic := rCSTR 4 in
  let* _u1 := rU32 in
  let* nm := rCSTR 16 in
  let* vct := rU32 in
  let* fct := rU32 in
  let* _u2 := rU32 in
  if negb (counts_ok vct fct) then
    raise (ValueError ("Unreasonable counts v=" ++ dec vct ++ " f=" ++ dec fct))
  else
    let* vs := replicateM (N.to_nat vct) read_vec3 in
    let* norms := replicateM (N.to_nat vct) read_vec3 in
    let* fs := replicateM (N.to_nat fct) read_face in
    ret {| name := str_or nm (basename path); verts := vs; faces := fs |}.

(** [parse_geo_classic path] on a file whose content is [content]. *)
Definition parse_geo_classic (path : string) (content : list byte) : res geo :=
  if (length content <? 64)%nat then Raise (ValueError "File too small to be a GEO")
  else match parse_body path content with
       | Ok (g, _) => Ok g
       | Raise e => Raise e
       end.

(** ** The host: [bpy.data.materials] and [bmesh] *)

(** A material datablock.  [mat_id] is its identity (the order of creation),
    [mat_name] the name the host gave it. *)
Record material : Type := { mat_id : nat; mat_name : string; use_nodes : bool }.

(** A triangle of the [bmesh]: the three vertices (by index of creation), the
    material slot, the shading flag and the UV pair of each loop.  The UV
    pairs are those of the corners, binary32 numbers once decoded, which the
    UV layer, of single precision, holds as they are. *)
Record tri : Type := {
  tri_verts : nat * nat * nat;
  material_index : nat;
  smooth : bool;
  tri_uvs : vec2 * vec2 * vec2 }.

(** The object [build_mesh] returns, with its mesh datablock: the vertex
    coordinates the mesh holds, the material slots and the faces.  The names
    of the two datablocks are the host's choice, from the names asked for
    and the names in use; they are not part of the model. *)
Record object : Type := {
  positions : list vec3;
  ob_materials : list material;
  triangles : list tri }.

(** [for x in l] over a body that may raise. *)
Fixpoint fold_res {A B} (f : A -> B -> res A) (l : list B) (a : A) : res A :=
  match l with
  | [] => Ok a
  | x :: l' => match f a x with
               | Ok a' => fold_res f l' a'
               | Raise e => Raise e
               end
  end.

(** [l[i]] for an index that is not negative. *)
Definition index_of {A} (l : list A) (i : N) : res nat :=
  if (i <? N.of_nat (length l))%N then Ok (N.to_nat i) else Raise IndexError.

Section Host.

(** The name the host gives a new datablock, from the names in use and the
    name asked for. *)
Variable unique_name : list string -> string -> string.

(** Whether [bm.faces.new] raises [ValueError] on three vertices, given the
    faces the mesh already has. *)
Variable faces_new_rejects : list tri -> nat * nat * nat -> bool.

(** [bpy.data.materials.new(t)] followed by [m.use_nodes = True]. *)
Definition materials_new (t : string) (db : list material) : material * list material :=
  let m := {| mat_id := length db;
              mat_name := unique_name (mat_name <$> db) t;
              use_nodes := true |} in
  (m, db ++ [m]).

(** Lines 85 to 91: one round of the loop over the faces' textures.  The
    state is the shared cache, the host's materials and the slots of the
    object. *)
Definition slot_material
    (st : gmap string material * list material * list material) (f : face)
    : gmap string material * list material * list material :=
  let '(cache, db, slots) := st in
  let t := tex f in
  let '(m, cache', db') :=
    match cache !! t with
    | Some m => (m, cache, db)
    | None => let '(m, db') := materials_new t db in (m, <[t := m]> cache, db')
    end in
  if bool_decide (mat_name m ∈ (mat_name <$> slots))
  then (cache', db', slots)
  else (cache', db', slots ++ [m]).

(** Line 97: the dictionary from material name to slot index. *)
Definition mat_index_of (slots : list material) : gmap string nat :=
  fold_left (fun d im => <[mat_name (snd im) := fst im]> d)
            (zip (seq 0 (length slots)) slots) ∅.

(** Lines 107 to 114: one triangle of the fan. *)
Definition try_triangle (vs : list vec3) (mid : nat) (a b c : ref)
    (bm : list tri) : res (list tri) :=
  match index_of vs (fst (fst a)), index_of vs (fst (fst b)), index_of vs (fst (fst c)) with
  | Ok va, Ok vb, Ok vc =>
      if faces_new_rejects bm (va, vb, vc) then Ok bm
      else Ok (bm ++ [{| tri_verts := (va, vb, vc);
                         material_index := mid;
                         smooth := true;
                         tri_uvs := (snd a, snd b, snd c) |}])
  | Raise e, _, _ => Raise e
  | _, Raise e, _ => Raise e
  | _, _, Raise e => Raise e
  end.

(** Lines 99 to 114: the fan of one face. *)
Definition triangulate_face (vs : list vec3) (idx : gmap string nat)
    (bm : list tri) (f : face) : res (list tri) :=
  let rs := refs f in
  if (length rs <? 3)%nat then Ok bm
  else
    let mid := default 0%nat (idx !! tex f) in
    match rs !! 0%nat with
    | None => Raise IndexError
    | Some a =>
        fold_res (fun bm i =>
                    match rs !! (i - 1)%nat, rs !! i with
                    | Some b, Some c => try_triangle vs mid a b c bm
                    | _, _ => Raise IndexError
                    end)
                 (seq 2 (length rs - 2)) bm
    end.

Definition scale_vec (scale : float) (p : vec3) : vec3 :=
  let '(x, y, z) := p in
  (PrimFloat.mul x scale, PrimFloat.mul y scale, PrimFloat.mul z scale).

(** [bm.verts.new(co)]: the vertex holds its coordinates in single
    precision. *)
Definition verts_new (co : vec3) : vec3 :=
  let '(x, y, z) := co in (c_float x, c_float y, c_float z).

(** [build_mesh geo scale mat_cache]: the result, and the cache and the
    host's materials as the call leaves them (also when it raises).  The
    default [mat_cache=None] is the empty cache. *)
Definition build_mesh (g : geo) (scale : float)
    (mat_cache : gmap string material) (db : list material)
    : res object * (gmap string material * list material) :=
  let vs := (fun p => verts_new (scale_vec scale p)) <$> verts g in
  let '(cache', db', slots) := fold_left slot_material (faces g) (mat_cache, db, []) in
  let idx := mat_index_of slots in
  (match fold_res (triangulate_face vs idx) (faces g) [] with
   | Ok tris => Ok {| positions := vs;
                      ob_materials := slots;
                      triangles := tris |}
   | Raise e => Raise e
   end, (cache', db')).

End Host.

(** The host of a fresh session: no name is taken, so a datablock keeps the
    name asked for. *)
Definition keep_name (_ : list string) (t : string) : string := t.

(** [bm.faces.new] of Blender's [bmesh]: [ValueError] when a vertex is passed
    twice or when a face on the same vertices exists. *)
Definition same_verts (t u : nat * nat * nat) : bool :=
  let '(a, b, c) := t in
  let '(x, y, z) := u in
  bool_decide (a ∈ [x; y; z]) && bool_decide (b ∈ [x; y; z]) && bool_decide (c ∈ [x; y; z]).

Definition bmesh_rejects (bm : list tri) (t : nat * nat * nat) : bool :=
  let '(a, b, c) := t in
  (a =? b)%nat || (b =? c)%nat || (a =? c)%nat
  || existsb (fun f => same_verts t (tri_verts f)) bm.

(** ** The batch operator *)

Inductive up_axis : Type := Z_up | Y_up.

(** [math.radians(-90.0)]. *)
Definition math_radians_minus_90 : float := (-0x1.921fb54442d18p+0)%float.

(** An object as the loop body leaves it: built, rotated when the up axis
    is Y, linked and parented by the host.  The angle is held in single
    precision. *)
Record linked : Type := { linked_ob : object; rotation_euler_x : float }.

(** The loop state of [execute]: the counter, the error list, the objects
    linked so far, the shared cache and the host's materials. *)
Record batch : Type := {
  imported : nat;
  errors : list (string * string);
  objects : list linked;
  mat_cache : gmap string material;
  bpy_materials : list material }.

Section Batch.

Variable unique_name : list string -> string -> string.
Variable faces_new_rejects : list tri -> nat * nat * nat -> bool.

(** The files on disk: the content of each path that is a file; no file
    is at the other paths.  Every file can be read. *)
Variable fs : string -> option (list byte).

Variable scale : float.
Variable axis_up : up_axis.

(** Lines 187 to 200: the body of the [try], with the cache and the host's
    materials as the body leaves them.  The host's calls that link and
    parent the object are taken not to raise. *)
Definition import_file (st : gmap string material * list material) (path : string)
    : res linked * (gmap string material * list material) :=
  match fs path with
  | None => (Raise (OSError ("[Errno 2] No such file or directory: '" ++ path ++ "'")), st)
  | Some content =>
      match parse_geo_classic path content with
      | Raise e => (Raise e, st)
      | Ok g =>
          let '(r, st') := build_mesh unique_name faces_new_rejects g scale (fst st) (snd st) in
          (match r with
           | Ok ob => Ok {| linked_ob := ob;
                            rotation_euler_x :=
                              match axis_up with
                              | Y_up => c_float math_radians_minus_90
                              | Z_up => 0%float
                              end |}
           | Raise e => Raise e
           end, st')
      end
  end.

(** Lines 185 to 204: one round of the loop over the paths. *)
Definition batch_step (b : batch) (path : string) : batch :=
  let '(r, (cache', db')) := import_file (mat_cache b, bpy_materials b) path in
  match r with
  | Ok o => {| imported := S (imported b);
               errors := errors b;
               objects := objects b ++ [o];
               mat_cache := cache';
               bpy_materials := db' |}
  | Raise e => {| imported := imported b;
                  errors := errors b ++ [(path, str_exn e)];
                  objects := objects b;
                  mat_cache := cache';
                  bpy_materials := db' |}
  end.

(** [execute] from the resolved selection on: the cache starts empty, the
    host's materials are those of the session. *)
Definition execute (filepaths : list string) (db : list material) : batch :=
  fold_left batch_step filepaths
    {| imported := 0; errors := []; objects := [];
       mat_cache := ∅; bpy_materials := db |}.

End Batch.

(** The exception importing [path] raises when the batch holds this file
    only, if any. *)
Definition import_error (unique_name : list string -> string -> string)
    (faces_new_rejects : list tri -> nat * nat * nat -> bool)
    (fs : string -> option (list byte)) (scale : float) (axis_up : up_axis)
    (path : string) : option exn :=
  match fst (import_file unique_name faces_new_rejects fs scale axis_up (∅, []) path) with
  | Ok _ => None
  | Raise e => Some e
  end.

(** The entry of [path] in the error list of such a batch, if any. *)
Definition error_entry (unique_name : list string -> string -> string)
    (faces_new_rejects : list tri -> nat * nat * nat -> bool)
    (fs : string -> option (list byte)) (scale : float) (axis_up : up_axis)
    (path : string) : option (string * string) :=
  match import_error unique_name faces_new_rejects fs scale axis_up path with
  | Some e => Some (path, str_exn e)
  | None => None
  end.

(** The models of the paths that can be opened and decoded, in order. *)
Definition parsed_models (fs : string -> option (list byte)) (paths : list string)
    : list geo :=
  omap (fun path => match fs path with
                    | Some content =>
                        match parse_geo_classic path content with
                        | Ok g => Some g
                        | Raise _ => None
                        end
                    | None => None
                    end) paths.

(** Lines 212 to 214: the message reported to the user. *)
Definition report_msg (b : batch) : string :=
  let msg := ("Imported " ++ dec (N.of_nat (imported b)) ++ " GEO file(s)")%string in
  match errors b with
  | [] => msg
  | _ => (msg ++ "; " ++ dec (N.of_nat (length (errors b))) ++ " failed - check Console")%string
  end.

(** The builds of a batch in a row, on the models of the files that parsed:
    the cache and the host's materials are handed from one call to the next. *)
Definition build_all (unique_name : list string -> string -> string)
    (faces_new_rejects : list tri -> nat * nat * nat -> bool) (scale : float)
    (gs : list geo) (st : gmap string material * list material)
    : gmap string material * list material :=
  fold_left (fun st g => snd (build_mesh unique_name faces_new_rejects g scale (fst st) (snd st)))
            gs st.

(** ** Sample files *)

(** Encoders for the samples: a little-endian u32 and a run of zero bytes. *)
Definition u32le (n : N) : list byte :=
  match Byte.of_N (n mod 256), Byte.of_N (n / 256 mod 256),
        Byte.of_N (n / 65536 mod 256), Byte.of_N (n / 16777216 mod 256) with
  | Some a, Some b, Some c, Some d => [a; b; c; d]
  | _, _, _, _ => []
  end.

Definition zeros (n : nat) : list byte := repeat x00 n.

Definition ascii_bytes (t : string) : list byte := list_byte_of_string t.

(** A header: tag, reserved word, name field, the two counts, reserved word. *)
Definition sample_header (vct fct : N) : list byte :=
  zeros 4 ++ zeros 4 ++ zeros 16 ++ u32le vct ++ u32le fct ++ zeros 4.

(** A face record with its corners; each corner is (vertex index, u bits,
    v bits), the normal index is 0. *)
Definition sample_corner (c : N * N * N) : list byte :=
  u32le (fst (fst c)) ++ u32le 0 ++ u32le (snd (fst c)) ++ u32le (snd c).

Definition sample_face (texture : list byte) (corners : list (N * N * N)) : list byte :=
  u32le 7 ++ u32le (N.of_nat (length corners)) ++ zeros 26
  ++ texture ++ zeros (13 - length texture) ++ zeros 8
  ++ concat (sample_corner <$> corners).

(** The smallest file the decoder accepts in full: one vertex, one normal,
    one face that has no corner and no texture name. *)
Definition cornerless_file : list byte :=
  sample_header 1 1 ++ zeros 12 ++ zeros 12 ++ sample_face [] [].

(** The same file with the texture name chrome01 on its face. *)
Definition chrome_cornerless_file : list byte :=
  sample_header 1 1 ++ zeros 12 ++ zeros 12 ++ sample_face (ascii_bytes "chrome01") [].

(** A face record with the texture name chrome01 and no corner, followed by
    two bytes of the next record. *)
Definition chrome_record : list byte :=
  sample_face (ascii_bytes "chrome01") [] ++ [x01; x02].

(** A face record that declares 4294967295 corners and holds none. *)
Definition greedy_record : list byte :=
  u32le 7 ++ u32le 4294967295 ++ zeros 47.

(** A file with three vertices and one textured triangle. *)
Definition triangle_file : list byte :=
  sample_header 3 1 ++ zeros 36 ++ zeros 36
  ++ sample_face (ascii_bytes "chrome01") [(0, 0, 0); (1, 1065353216, 0); (2, 0, 1065353216)].

(** A file with the vertices (1.5, -2, 0.1), (0, 1, 0) and (0, 0, 1), the
    last coordinate of the first being the binary32 number nearest to a
    tenth, and one triangle. *)
Definition scaled_triangle_file : list byte :=
  sample_header 3 1
  ++ (u32le 1069547520 ++ u32le 3221225472 ++ u32le 1036831949
      ++ zeros 4 ++ u32le 1065353216 ++ zeros 4
      ++ zeros 8 ++ u32le 1065353216)
  ++ zeros 36
  ++ sample_face (ascii_bytes "chrome01") [(0, 0, 0); (1, 1065353216, 0); (2, 0, 1065353216)].

(** The same triangle with the largest binary32 number, 3.4028235e38, as
    the first coordinate of its first vertex. *)
Definition far_triangle_file : list byte :=
  sample_header 3 1
  ++ (u32le 2139095039 ++ zeros 8
      ++ zeros 4 ++ u32le 1065353216 ++ zeros 4
      ++ zeros 8 ++ u32le 1065353216)
  ++ zeros 36
  ++ sample_face (ascii_bytes "chrome01") [(0, 0, 0); (1, 1065353216, 0); (2, 0, 1065353216)].

(** The models these two files hold. *)
Definition scaled_triangle_model : geo :=
  {| name := "a.geo";
     verts := [(0x1.8p+0, -0x1p+1, 0x1.99999ap-4); (0, 1, 0); (0, 0, 1)]%float;
     faces := [{| tex := "chrome01";
                  refs := [(0, 0, (0, 0)%float); (1, 0, (1, 0)%float);
                           (2, 0, (0, 1)%float)] |}] |}.

Definition far_triangle_model : geo :=
  {| name := "a.geo";
     verts := [(0x1.fffffep+127, 0, 0); (0, 1, 0); (0, 0, 1)]%float;
     faces := [{| tex := "chrome01";
                  refs := [(0, 0, (0, 0)%float); (1, 0, (1, 0)%float);
                           (2, 0, (0, 1)%float)] |}] |}.

(** The same file with another normal for the first vertex. *)
Definition triangle_file' : list byte :=
  sample_header 3 1 ++ zeros 36 ++ (u32le 1065353216 ++ zeros 32)
  ++ sample_face (ascii_bytes "chrome01") [(0, 0, 0); (1, 1065353216, 0); (2, 0, 1065353216)].

(** ** The fan, as the specification words it *)

(** The triangle on three corners: their vertex indices and their UV pairs. *)
Definition corner_tri (mid : nat) (a b c : ref) : tri :=
  {| tri_verts := (N.to_nat (fst (fst a)), N.to_nat (fst (fst b)), N.to_nat (fst (fst c)));
     material_index := mid;
     smooth := true;
     tri_uvs := (snd a, snd b, snd c) |}.

(** Triangles [(c0, c_(i-1), c_i)] for the corners that follow [prev]. *)
Fixpoint fan_from (mid : nat) (c0 prev : ref) (rest : list ref) : list tri :=
  match rest with
  | [] => []
  | c :: rest' => corner_tri mid c0 prev c :: fan_from mid c0 c rest'
  end.

(** The fan of a face with corners [c0, ..., c_(n-1)]: empty when [n < 3]. *)
Definition fan_triangles (mid : nat) (rs : list ref) : list tri :=
  match rs with
  | c0 :: c1 :: rest => fan_from mid c0 c1 rest
  | _ => []
  end.

(** Adding a triangle to a mesh that may refuse it. *)
Definition accept (rejects : list tri -> nat * nat * nat -> bool)
    (bm : list tri) (t : tri) : list tri :=
  if rejects bm (tri_verts t) then bm else bm ++ [t].

(** A corner whose vertex index is below the number of vertices. *)
Definition in_range (vs : list vec3) (r : ref) : bool :=
  (fst (fst r) <? N.of_nat (length vs))%N.

(** A face the builder gets through: fewer than three corners, or every
    corner in range. *)
Definition face_ok (vs : list vec3) (f : face) : bool :=
  (length (refs f) <? 3)%nat || forallb (in_range vs) (refs f).

(** A model with four vertices and one quad whose last corner has the
    vertex index 4, the number of vertices. *)
Definition uv0 : vec2 := (0, 0)%float.

Definition quad_out_of_range : geo :=
  {| name := "q";
     verts := [(0, 0, 0); (1, 0, 0); (1, 1, 0); (0, 1, 0)]%float;
     faces := [{| tex := "chrome01";
                  refs := [(0, 0, uv0); (1, 0, uv0); (2, 0, uv0); (4, 0, uv0)] |}] |}.

(** The file of that model: the four corners are otherwise valid. *)
Definition quad_out_of_range_file : list byte :=
  sample_header 4 1 ++ zeros 48 ++ zeros 48
  ++ sample_face (ascii_bytes "chrome01") [(0, 0, 0); (1, 0, 0); (2, 0, 0); (4, 0, 0)].

(** A disk that holds this one file. *)
Definition one_file_disk (content : list byte) (p : string) : option (list byte) :=
  if String.eqb p "q.geo" then Some content else None.

(** A quad on four vertices, with a UV pair of its own at each corner. *)
Definition quad_verts : list vec3 := [(0, 0, 0); (1, 0, 0); (1, 1, 0); (0, 1, 0)]%float.

Definition quad_face : face :=
  {| tex := "chrome01";
     refs := [(0, 0, (0, 0)%float); (1, 0, (1, 0)%float);
              (2, 0, (1, 1)%float); (3, 0, (0, 1)%float)] |}.

(** A model whose second face repeats the first and whose third face uses
    its first vertex twice; all the vertex indices are in range. *)
Definition folded_model : geo :=
  {| name := "folded";
     verts := quad_verts;
     faces := [{| tex := "a"; refs := [(0, 0, uv0); (1, 0, uv0); (2, 0, uv0)] |};
               {| tex := "a"; refs := [(0, 0, uv0); (1, 0, uv0); (2, 0, uv0)] |};
               {| tex := "a"; refs := [(0, 0, uv0); (0, 0, uv0); (1, 0, uv0)] |}] |}.

(** A disk with three files, the second of which lost its last byte. *)
Definition three_file_disk (p : string) : option (list byte) :=
  if String.eqb p "a.geo" then Some triangle_file
  else if String.eqb p "b.geo" then Some (removelast triangle_file)
  else if String.eqb p "c.geo" then Some triangle_file
  else None.

(** A header that declares no vertex, padded to the 64 bytes the size test
    asks for. *)
Definition no_vertex_file : list byte := sample_header 0 1 ++ zeros 28.

(** The size of the data a model declares: the header, the vertices and the
    normals, and for each face its fixed part and its corners. *)
Definition expected_size (g : geo) : nat :=
  36 + 24 * length (verts g)
  + sum_list ((fun f => 55 + 16 * length (refs f))%nat <$> faces g).

(** The model of [triangle_file] under the path a.geo. *)
Definition triangle_model : geo :=
  {| name := "a.geo";
     verts := [(0, 0, 0); (0, 0, 0); (0, 0, 0)]%float;
     faces := [{| tex := "chrome01";
                  refs := [(0, 0, (0, 0)%float); (1, 0, (1, 0)%float);
                           (2, 0, (0, 1)%float)] |}] |}.



(** [os.path.join(a, b)] (POSIX): [b] when it starts with a slash, else [a]
    and [b] with a slash between them unless [a] is empty or ends with one. *)
Definition starts_with_slash (p : string) : bool :=
  match p with
  | String c _ => Ascii.eqb c "/"%char
  | EmptyString => false
  end.

Fixpoint ends_with_slash (p : string) : bool :=
  match p with
  | EmptyString => false
  | String c EmptyString => Ascii.eqb c "/"%char
  | String _ r => ends_with_slash r
  end.

Definition os_path_join (a b : string) : string :=
  if starts_with_slash b then b
  else match a with
       | EmptyString => b
       | _ => if ends_with_slash a then (a ++ b)%string
              else (a ++ String "/"%char b)%string
       end.

(** Lines 158 to 163: the paths of the selection, or the single path of the
    operator when no file is selected. *)
Definition selected_paths (files : list string) (directory filepath : string)
    : list string :=
  match files with
  | [] => [filepath]
  | _ => os_path_join directory <$> files
  end.

(** Whether a name has a slash in it. *)
Fixpoint has_slash (p : string) : bool :=
  match p with
  | EmptyString => false
  | String c r => Ascii.eqb c "/"%char || has_slash r
  end.

(** The models of the files of a batch that are decoded and built, in the
    order of the paths. *)
Definition built_models (fs : string -> option (list byte)) (paths : list string)
    : list geo :=
  List.filter (fun g => forallb (face_ok (verts g)) (faces g)) (parsed_models fs paths).



(** A reader of fixed width [w]: it needs [w] bytes, raises [struct.error]
    when they are not there, and its value depends on these bytes only. *)
Definition fixed {A} (w : nat) (d : list byte -> A) (m : reader A) : Prop :=
  forall s, m s = if (w <=? length s)%nat then Ok (d (take w s), drop w s)
                  else Raise struct_error.

(** A reader that takes what is there, up to [n] bytes, and never raises. *)
Definition lenient {A} (n : nat) (v : list byte -> A) (m : reader A) : Prop :=
  forall s, m s = Ok (v (take n s), drop n s).

(** The values a fixed-width reader gives on [n] consecutive fields. *)
Fixpoint decode_n {A} (n w : nat) (d : list byte -> A) (b : list byte) : list A :=
  match n with
  | O => []
  | S n' => d (take w b) :: decode_n n' w d (drop w b)
  end.

(** A reader never gives bytes back. *)
Definition nongrowing {A} (m : reader A) : Prop :=
  forall s a r, m s = Ok (a, r) -> (length r <= length s)%nat.

(** A run that stays inside a prefix of the stream is a run on the prefix. *)
Definition stable {A} (m : reader A) : Prop :=
  forall s t a r, m (s ++ t) = Ok (a, r) -> (length t <= length r)%nat ->
    exists r', r = r' ++ t /\ m s = Ok (a, r').

(** A run that reads past a prefix raises when the stream stops there,
    for the results that satisfy [phi]. *)
Definition detects {A} (phi : A -> Prop) (m : reader A) : Prop :=
  forall s t a r, m (s ++ t) = Ok (a, r) -> phi a -> (length r < length t)%nat ->
    m s = Raise struct_error.

Definition decode_vec2 (b : list byte) : vec2 :=
  (float_of_bits32 (le_value (take 4 b)), float_of_bits32 (le_value (take 4 (drop 4 b)))).

Definition decode_vec3 (b : list byte) : vec3 :=
  (float_of_bits32 (le_value (take 4 b)),
   float_of_bits32 (le_value (take 4 (drop 4 b))),
   float_of_bits32 (le_value (take 4 (drop 8 b)))).

Definition decode_ref (b : list byte) : ref :=
  (le_value (take 4 b), le_value (take 4 (drop 4 b)),
   (float_of_bits32 (le_value (take 4 (drop 8 b))),
    float_of_bits32 (le_value (take 4 (drop 12 b))))).

(** The normal vectors a file stores: [vertex_count] vectors of three floats
    that follow the vertex block. *)
Definition file_normals (content : list byte) : list vec3 :=
  let v := N.to_nat (le_value (take 4 (drop 24 content))) in
  decode_n v 12 decode_vec3 (take (v * 12) (drop (36 + v * 12) content)).

(** The part of [parse_body] that follows the header, for the name and the
    counts the header gave. *)
Definition parse_tail (path nm : string) (vct fct : N) : reader geo :=
  let* vs := replicateM (N.to_nat vct) read_vec3 in
  let* norms := replicateM (N.to_nat vct) read_vec3 in
  let* fs := replicateM (N.to_nat fct) read_face in
  ret {| name := str_or nm (basename path); verts := vs; faces := fs |}.

(** * Properties *)

(** ** Binary64: multiplying by one changes nothing *)

Lemma SF64mul_one_r (x : spec_float) :
  valid_binary x = true -> SF64mul x (Prim2SF 1%float) = x.
Proof.
  intros Hv.
  change (Prim2SF 1%float) with (S754_finite false 4503599627370496 (-52)).
  destruct x as [s|s| |s m e]; cbn [SF64mul SFmul].
  - now destruct s.
  - now destruct s.
  - reflexivity.
  - unfold SF64mul, SFmul.
    cbn in Hv. unfold bounded, canonical_mantissa in Hv.
    apply andb_prop in Hv. destruct Hv as [Hc Hb].
    apply Z.eqb_eq in Hc.
    rewrite Pos.mul_comm. cbv [Pos.mul].
    unfold binary_round_aux.
    set (m52 := Z.pos _).
    assert (H1 : shr_fexp prec emax m52 (e + -52) loc_Exact
                 = ({| shr_m := Z.pos m; shr_r := false; shr_s := false |}, e)).
    { unfold shr_fexp, m52. cbn [Zdigits2 digits2_pos shr_record_of_loc].
      replace (fexp prec emax _ - (e + -52))%Z with 52%Z.
      - unfold shr. cbn [iter_pos shr_1 orb]. f_equal. lia.
      - rewrite <- Hc at 2.
        rewrite !Pos2Z.inj_succ.
        replace (Z.succ _ + (e + -52))%Z with (Z.pos (digits2_pos m) + e)%Z by lia.
        rewrite Hc. lia. }
    rewrite H1. cbn [shr_m loc_of_shr_record round_nearest_even].
    assert (H2 : shr_fexp prec emax (Z.pos m) e loc_Exact
                 = ({| shr_m := Z.pos m; shr_r := false; shr_s := false |}, e)).
    { unfold shr_fexp. cbn [Zdigits2 shr_record_of_loc].
      rewrite Hc, Z.sub_diag. reflexivity. }
    rewrite H2. cbn [shr_m]. rewrite Hb. now destruct s.
Qed.

Lemma float_mul_one_r (x : float) : PrimFloat.mul x 1 = x.
Proof.
  apply Prim2SF_inj. rewrite mul_spec. apply SF64mul_one_r, Prim2SF_valid.
Qed.

(** ** Binary32: the numbers a C [float] holds *)

Section Binary32.

Local Open Scope Z_scope.

Lemma digits2_pos_log2 p : Z.pos (digits2_pos p) = Z.log2 (Z.pos p) + 1.
Proof.
  induction p as [p IH|p IH|]; cbn [digits2_pos]; [| |reflexivity].
  - rewrite Pos2Z.inj_succ, IH. change (Z.pos p~1) with (2 * Z.pos p + 1).
    rewrite Z.log2_succ_double by lia. lia.
  - rewrite Pos2Z.inj_succ, IH. change (Z.pos p~0) with (2 * Z.pos p).
    rewrite Z.log2_double by lia. lia.
Qed.

Lemma digits2_pos_bounds p :
  2 ^ (Z.pos (digits2_pos p) - 1) <= Z.pos p < 2 ^ Z.pos (digits2_pos p).
Proof.
  rewrite digits2_pos_log2.
  replace (Z.log2 (Z.pos p) + 1 - 1) with (Z.log2 (Z.pos p)) by lia.
  replace (Z.log2 (Z.pos p) + 1) with (Z.succ (Z.log2 (Z.pos p))) by lia.
  apply Z.log2_spec. lia.
Qed.

Lemma digits2_pos_unique p d :
  2 ^ (d - 1) <= Z.pos p < 2 ^ d -> Z.pos (digits2_pos p) = d.
Proof.
  intros H. rewrite digits2_pos_log2.
  assert (0 < d).
  { destruct (Z.ltb_spec 0 d); [assumption|].
    destruct (Z.eqb_spec d 0) as [->|]; [change (2 ^ 0) with 1 in H; lia|].
    rewrite (Z.pow_neg_r 2 d) in H by lia. lia. }
  rewrite (Z.log2_unique (Z.pos p) (d - 1)); [lia | lia |].
  replace (Z.succ (d - 1)) with d by lia. assumption.
Qed.

Lemma pos_iter_xO m k : Z.pos (Pos.iter xO m k) = Z.pos m * 2 ^ Z.pos k.
Proof.
  induction k as [|k IH] using Pos.peano_ind.
  - cbn [Pos.iter]. rewrite Pos2Z.inj_xO. change (2 ^ 1) with 2. lia.
  - rewrite Pos.iter_succ, Pos2Z.inj_xO, IH, Pos2Z.inj_succ, Z.pow_succ_r by lia. lia.
Qed.

Lemma iter_pos_nat {A} (f : A -> A) p x :
  SpecFloat.iter_pos f p x = Nat.iter (Pos.to_nat p) f x.
Proof.
  revert x. induction p as [p IH|p IH|]; intros x; cbn [SpecFloat.iter_pos].
  - rewrite !IH, Pos2Nat.inj_xI.
    replace (S (2 * Pos.to_nat p)) with (Pos.to_nat p + (Pos.to_nat p + 1))%nat by lia.
    rewrite !Nat.iter_add. reflexivity.
  - rewrite !IH, Pos2Nat.inj_xO.
    replace (2 * Pos.to_nat p)%nat with (Pos.to_nat p + Pos.to_nat p)%nat by lia.
    rewrite Nat.iter_add. reflexivity.
  - reflexivity.
Qed.

Lemma shr_1_even q :
  0 <= q ->
  shr_1 {| shr_m := 2 * q; shr_r := false; shr_s := false |}
  = {| shr_m := q; shr_r := false; shr_s := false |}.
Proof. destruct q as [|q|q]; [reflexivity | reflexivity | lia]. Qed.

Lemma shr_exact n q :
  0 <= q ->
  Nat.iter n shr_1 {| shr_m := q * 2 ^ Z.of_nat n; shr_r := false; shr_s := false |}
  = {| shr_m := q; shr_r := false; shr_s := false |}.
Proof.
  intros Hq. induction n as [|n IH].
  - change (Z.of_nat 0) with 0. rewrite Z.pow_0_r, Z.mul_1_r. reflexivity.
  - rewrite Nat.iter_succ_r, Nat2Z.inj_succ, Z.pow_succ_r by lia.
    replace (q * (2 * 2 ^ Z.of_nat n)) with (2 * (q * 2 ^ Z.of_nat n)) by lia.
    rewrite shr_1_even by (apply Z.mul_nonneg_nonneg; [lia|apply Z.pow_nonneg; lia]).
    exact IH.
Qed.

(** A number whose mantissa is canonical is left as it is. *)
Lemma binary_round_aux_canonical p em s m e :
  bounded p em m e = true ->
  binary_round_aux p em s (Z.pos m) e loc_Exact = S754_finite s m e.
Proof.
  unfold bounded, canonical_mantissa. intros H.
  apply andb_prop in H as [Hc Hb]. apply Z.eqb_eq in Hc.
  unfold binary_round_aux.
  assert (E : shr_fexp p em (Z.pos m) e loc_Exact
              = ({| shr_m := Z.pos m; shr_r := false; shr_s := false |}, e)).
  { unfold shr_fexp. cbn [Zdigits2 shr_record_of_loc]. rewrite Hc, Z.sub_diag. reflexivity. }
  rewrite E. cbn [shr_m loc_of_shr_record round_nearest_even]. rewrite E. cbn [shr_m].
  rewrite Hb. reflexivity.
Qed.

(** Widening: a mantissa of fewer digits is shifted to the left. *)
Lemma binary_round_widen p em s m e k :
  0 < k ->
  fexp p em (Z.pos (digits2_pos m) + e) = e - k ->
  e - k <= em - p ->
  exists M, Z.pos M = Z.pos m * 2 ^ k
            /\ bounded p em M (e - k) = true
            /\ binary_round p em s m e = S754_finite s M (e - k).
Proof.
  intros Hk Hf Hb. unfold binary_round, shl_align. rewrite Hf.
  destruct (e - k - e) as [|d|d] eqn:Ed; try lia.
  assert (Hd : Z.pos d = k) by lia.
  exists (Pos.iter xO m d).
  assert (HM : Z.pos (Pos.iter xO m d) = Z.pos m * 2 ^ k) by (rewrite pos_iter_xO, Hd; reflexivity).
  assert (HB : bounded p em (Pos.iter xO m d) (e - k) = true).
  { unfold bounded, canonical_mantissa. apply andb_true_intro. split; [|apply Z.leb_le; lia].
    apply Z.eqb_eq. rewrite <- Hf at 2. f_equal.
    rewrite !digits2_pos_log2, HM, Z.log2_mul_pow2 by lia. lia. }
  split; [assumption|]. split; [assumption|].
  apply binary_round_aux_canonical. assumption.
Qed.

(** Rounding is exact when the bits that are dropped are zero. *)
Lemma binary_round_aux_exact p em s M E m n :
  0 < n ->
  Z.pos M = Z.pos m * 2 ^ n ->
  fexp p em (Z.pos (digits2_pos M) + E) = E + n ->
  E + n <= em - p ->
  binary_round_aux p em s (Z.pos M) E loc_Exact = S754_finite s m (E + n).
Proof.
  intros Hn HM Hf Hb. unfold binary_round_aux.
  destruct (E + n - E) as [|d|d] eqn:Ed; try lia.
  assert (E1 : shr_fexp p em (Z.pos M) E loc_Exact
               = ({| shr_m := Z.pos m; shr_r := false; shr_s := false |}, E + n)).
  { unfold shr_fexp. cbn [Zdigits2 shr_record_of_loc]. rewrite Hf, Ed. unfold shr.
    rewrite iter_pos_nat. f_equal; [|lia].
    rewrite HM. replace n with (Z.of_nat (Pos.to_nat d)) by lia.
    apply shr_exact. lia. }
  rewrite E1. cbn [shr_m loc_of_shr_record round_nearest_even].
  assert (E2 : shr_fexp p em (Z.pos m) (E + n) loc_Exact
               = ({| shr_m := Z.pos m; shr_r := false; shr_s := false |}, E + n)).
  { unfold shr_fexp. cbn [Zdigits2 shr_record_of_loc].
    replace (Z.pos (digits2_pos m) + (E + n)) with (Z.pos (digits2_pos M) + E).
    - rewrite Hf, Z.sub_diag. reflexivity.
    - rewrite !digits2_pos_log2, HM, Z.log2_mul_pow2 by lia. lia. }
  rewrite E2. cbn [shr_m].
  destruct (Z.leb_spec (E + n) (em - p)); [reflexivity | lia].
Qed.

Lemma binary_round_narrow p em s M E m n :
  0 < n ->
  Z.pos M = Z.pos m * 2 ^ n ->
  fexp p em (Z.pos (digits2_pos M) + E) = E + n ->
  E + n <= em - p ->
  binary_round p em s M E = S754_finite s m (E + n).
Proof.
  intros Hn HM Hf Hb. unfold binary_round, shl_align. rewrite Hf.
  destruct (E + n - E) as [|d|d] eqn:Ed; try lia.
  apply binary_round_aux_exact; assumption.
Qed.

Lemma fits32_finite s M E m n :
  bounded prec emax M E = true ->
  Z.pos (digits2_pos M) = 53 ->
  0 < n ->
  Z.pos M = Z.pos m * 2 ^ n ->
  fexp 24 128 (53 + E) = E + n ->
  E + n <= 104 ->
  fits32 (S754_finite s M E).
Proof.
  intros HB Hd Hn HM Hf Hb. unfold fits32. cbn [round_to].
  rewrite (binary_round_narrow 24 128 s M E m n) by (rewrite ?Hd; assumption || lia).
  cbn [round_to].
  unfold bounded, canonical_mantissa in HB. apply andb_prop in HB as [Hc Hle].
  apply Z.eqb_eq in Hc. apply Z.leb_le in Hle. rewrite Hd in Hc.
  assert (Hdm : Z.pos (digits2_pos m) + n = 53).
  { rewrite <- Hd, !digits2_pos_log2, HM, Z.log2_mul_pow2 by lia. lia. }
  destruct (binary_round_widen prec emax s m (E + n) n) as (M' & HM' & _ & ->).
  - assumption.
  - replace (Z.pos (digits2_pos m) + (E + n)) with (53 + E) by lia. rewrite Hc. lia.
  - lia.
  - replace (E + n - n) with E by lia. f_equal. lia.
Qed.

(** The binary64 number of a binary32 number. *)
Lemma widen32 s m e :
  bounded 24 128 m e = true ->
  let k := 53 - Z.pos (digits2_pos m) in
  29 <= k
  /\ fexp 24 128 (Z.pos (digits2_pos m) + e) = e
  /\ e <= 104
  /\ exists M, Z.pos M = Z.pos m * 2 ^ k
               /\ Z.pos (digits2_pos M) = 53
               /\ bounded prec emax M (e - k) = true
               /\ binary_round prec emax s m e = S754_finite s M (e - k).
Proof.
  intros HB k. unfold bounded, canonical_mantissa in HB.
  apply andb_prop in HB as [Hc Hle]. apply Z.eqb_eq in Hc. apply Z.leb_le in Hle.
  assert (Hk : 29 <= k) by (unfold fexp, emin in Hc; lia).
  split; [assumption|]. split; [assumption|]. split; [lia|].
  destruct (binary_round_widen prec emax s m e k) as (M & HM & HB & HR).
  - lia.
  - unfold fexp, emin in *. unfold prec, emax. lia.
  - unfold prec, emax. lia.
  - exists M. split; [assumption|]. split; [|split; assumption].
    rewrite !digits2_pos_log2, HM, Z.log2_mul_pow2 by lia.
    pose proof (digits2_pos_log2 m). lia.
Qed.

Lemma fits32_widen s m e :
  bounded 24 128 m e = true -> fits32 (binary_round prec emax s m e).
Proof.
  intros HB. destruct (widen32 s m e HB) as (Hk & Hc & Hle & M & HM & Hd & HB64 & ->).
  apply (fits32_finite s M _ m (53 - Z.pos (digits2_pos m))); try assumption; try lia.
  replace (53 + (e - (53 - Z.pos (digits2_pos m)))) with (Z.pos (digits2_pos m) + e) by lia.
  rewrite Hc. lia.
Qed.

Lemma fits32_round_to b :
  SpecFloat.valid_binary 24 128 b = true -> fits32 (round_to prec emax b).
Proof.
  destruct b as [s|s| |s m e]; try reflexivity.
  cbn [SpecFloat.valid_binary round_to]. apply fits32_widen.
Qed.

Lemma valid_round_to b :
  SpecFloat.valid_binary 24 128 b = true -> valid_binary (round_to prec emax b) = true.
Proof.
  destruct b as [s|s| |s m e]; try reflexivity.
  cbn [SpecFloat.valid_binary round_to]. intros HB.
  destruct (widen32 s m e HB) as (_ & _ & _ & M & _ & _ & HB64 & ->). exact HB64.
Qed.

Lemma c_float_fits x : fits32 (Prim2SF x) -> c_float x = x.
Proof. unfold c_float, fits32. intros ->. apply SF2Prim_Prim2SF. Qed.

(** ** Bit patterns *)

Lemma land_ones_lt w n : (N.land w (N.ones n) < 2 ^ n)%N.
Proof. rewrite N.land_ones. apply N.mod_lt, N.pow_nonzero. discriminate. Qed.

Lemma binary32_of_bits_valid w :
  SpecFloat.valid_binary 24 128 (binary32_of_bits w) = true.
Proof.
  unfold binary32_of_bits.
  pose proof (land_ones_lt w 23) as Hm.
  pose proof (land_ones_lt (N.shiftr w 23) 8) as He.
  change (N.ones 23) with 8388607%N in Hm. change (N.ones 8) with 255%N in He.
  change (2 ^ 23)%N with 8388608%N in Hm. change (2 ^ 8)%N with 256%N in He.
  set (m := N.land w 8388607) in *. set (e := N.land (N.shiftr w 23) 255) in *.
  destruct (N.eqb_spec e 255); [destruct (m =? 0)%N; reflexivity|].
  destruct (N.eqb_spec e 0).
  - destruct m as [|p]; [reflexivity|].
    cbn [SpecFloat.valid_binary]. unfold bounded, canonical_mantissa.
    apply andb_true_intro. split; [|reflexivity]. apply Z.eqb_eq.
    pose proof (digits2_pos_bounds p) as [Hl _].
    assert (Z.pos (digits2_pos p) - 1 < 23).
    { apply (Z.pow_lt_mono_r_iff 2); lia. }
    unfold fexp, emin. lia.
  - cbn [SpecFloat.valid_binary]. unfold bounded, canonical_mantissa.
    assert (Hd : Z.pos (digits2_pos (N.succ_pos (m + 8388607))) = 24).
    { apply digits2_pos_unique.
      assert (Z.pos (N.succ_pos (m + 8388607)) = Z.of_N m + 8388608).
      { change (Z.pos (N.succ_pos (m + 8388607)))
          with (Z.of_N (N.pos (N.succ_pos (m + 8388607)))).
        rewrite N.succ_pos_spec. lia. }
      change (2 ^ (24 - 1)) with 8388608. change (2 ^ 24) with 16777216. lia. }
    rewrite Hd. apply andb_true_intro. split.
    + apply Z.eqb_eq. unfold fexp, emin. lia.
    + apply Z.leb_le. lia.
Qed.

Lemma Prim2SF_float_of_bits32 w :
  Prim2SF (float_of_bits32 w) = round_to prec emax (binary32_of_bits w).
Proof. apply Prim2SF_SF2Prim, valid_round_to, binary32_of_bits_valid. Qed.

Lemma c_float_float_of_bits32 w : c_float (float_of_bits32 w) = float_of_bits32 w.
Proof.
  apply c_float_fits. rewrite Prim2SF_float_of_bits32.
  apply fits32_round_to, binary32_of_bits_valid.
Qed.

(** ** Doubling *)

Lemma SF64mul_two s M E :
  bounded prec emax M E = true ->
  Z.pos (digits2_pos M) = 53 ->
  E + 1 <= 971 ->
  SF64mul (S754_finite s M E) (Prim2SF 2%float) = S754_finite s M (E + 1).
Proof.
  intros HB Hd Hle.
  change (Prim2SF 2%float) with (S754_finite false 4503599627370496 (-51)).
  unfold SF64mul, SFmul. rewrite xorb_false_r.
  unfold bounded, canonical_mantissa in HB. apply andb_prop in HB as [Hc _].
  apply Z.eqb_eq in Hc. rewrite Hd in Hc.
  replace (E + 1) with (E + -51 + 52) by lia.
  apply binary_round_aux_exact.
  - lia.
  - rewrite Pos2Z.inj_mul. reflexivity.
  - rewrite digits2_pos_log2, Pos2Z.inj_mul.
    change (Z.pos 4503599627370496) with (2 ^ 52).
    rewrite Z.log2_mul_pow2 by lia. rewrite digits2_pos_log2 in Hd.
    unfold fexp, emin, prec, emax in *. lia.
  - unfold prec, emax. lia.
Qed.

Lemma fits32_doubled w :
  half_range (float_of_bits32 w) = true ->
  fits32 (Prim2SF (float_of_bits32 w * 2)%float).
Proof.
  unfold half_range. rewrite leb_spec, abs_spec, mul_spec, Prim2SF_float_of_bits32.
  pose proof (binary32_of_bits_valid w) as HV.
  destruct (binary32_of_bits w) as [s|s| |s m e]; cbn [round_to].
  - intros _. destruct s; reflexivity.
  - intros _. destruct s; reflexivity.
  - intros _. reflexivity.
  - cbn [SpecFloat.valid_binary] in HV.
    destruct (widen32 s m e HV) as (Hk & Hc & Hle & M & HM & Hd & HB64 & ->).
    set (k := 53 - Z.pos (digits2_pos m)) in *.
    change (Prim2SF 0x1.fffffep+126) with (S754_finite false 9007198717870080 74).
    unfold SFleb. cbn [SFabs SFcompare]. intros Hx.
    assert (HE : e - k <= 74).
    { destruct (Z.compare_spec (e - k) 74); [lia | lia | discriminate]. }
    pose proof HB64 as HB. unfold bounded, canonical_mantissa in HB.
    apply andb_prop in HB as [Hc64 Hle64]. apply Z.eqb_eq in Hc64. apply Z.leb_le in Hle64.
    rewrite Hd in Hc64.
    rewrite SF64mul_two by (assumption || lia).
    assert (HB' : bounded prec emax M (e - k + 1) = true).
    { unfold bounded, canonical_mantissa. rewrite Hd.
      apply andb_true_intro. split; [apply Z.eqb_eq | apply Z.leb_le].
      - unfold fexp, emin, prec, emax in *. lia.
      - unfold prec, emax. lia. }
    destruct (Z.eq_dec (Z.pos (digits2_pos m)) 24) as [H24 | H24].
    + apply (fits32_finite s M _ m k); try assumption; try lia.
      unfold fexp, emin in *. lia.
    + assert (e = -149) by (unfold fexp, emin in Hc; lia). subst e.
      apply (fits32_finite s M _ (m~0) (k - 1)); try assumption; try lia.
      * rewrite Pos2Z.inj_xO, HM.
        replace k with (Z.succ (k - 1)) at 1 by lia.
        rewrite Z.pow_succ_r by lia. lia.
      * unfold fexp, emin in *. lia.
Qed.

Lemma c_float_doubled w :
  half_range (float_of_bits32 w) = true ->
  c_float (float_of_bits32 w * 2)%float = (float_of_bits32 w * 2)%float.
Proof. intros H. apply c_float_fits, fits32_doubled, H. Qed.

End Binary32.

(** ** Readers *)

Lemma bind_eq {A B} (m : reader A) (k : A -> reader B) s :
  bind m k s = match m s with Ok (a, s') => k a s' | Raise e => Raise e end.
Proof. reflexivity. Qed.

Lemma fixed_rU32 : fixed 4 le_value rU32.
Proof.
  intros s. unfold rU32, unpack_I. rewrite bind_eq. cbn [f_read lift].
  rewrite length_take.
  destruct (Nat.leb_spec 4 (length s)).
  - rewrite Nat.min_l by lia. reflexivity.
  - rewrite Nat.min_r by lia. destruct (Nat.eqb_spec (length s) 4); [lia | reflexivity].
Qed.

Lemma fixed_rF32 : fixed 4 (fun b => float_of_bits32 (le_value b)) rF32.
Proof.
  intros s. unfold rF32, unpack_f. rewrite bind_eq. cbn [f_read lift].
  rewrite length_take.
  destruct (Nat.leb_spec 4 (length s)).
  - rewrite Nat.min_l by lia. reflexivity.
  - rewrite Nat.min_r by lia. destruct (Nat.eqb_spec (length s) 4); [lia | reflexivity].
Qed.

Lemma lenient_f_read n : lenient n (fun b => b) (f_read n).
Proof. intros s. reflexivity. Qed.

Lemma lenient_rCSTR n : lenient n cstr (rCSTR n).
Proof. intros s. reflexivity. Qed.

Lemma take_drop_take {A} (l : list A) n k m :
  (k + n <= m)%nat -> take n (drop k (take m l)) = take n (drop k l).
Proof.
  intros H. rewrite !take_drop_commute, take_take, Nat.min_l by lia. reflexivity.
Qed.

(** One field of a fixed-width record: rewrite with its equation and split
    on whether the bytes are there. *)
Ltac fixed_field F :=
  rewrite bind_eq, F, ?length_drop, ?drop_drop;
  match goal with
  | |- context [Nat.leb ?w ?n] =>
      destruct (Nat.leb_spec w n);
      [| match goal with
         | |- context [Nat.leb ?w' ?n'] => destruct (Nat.leb_spec w' n'); [lia | reflexivity]
         end]
  end.

Lemma fixed_read_vec2 : fixed 8 decode_vec2 read_vec2.
Proof.
  intros s. unfold read_vec2.
  fixed_field fixed_rF32. fixed_field fixed_rF32.
  destruct (Nat.leb_spec 8 (length s)); [|lia].
  unfold ret, decode_vec2. rewrite take_take, take_drop_take by lia. reflexivity.
Qed.

Lemma fixed_read_vec3 : fixed 12 decode_vec3 read_vec3.
Proof.
  intros s. unfold read_vec3.
  fixed_field fixed_rF32. fixed_field fixed_rF32. fixed_field fixed_rF32.
  destruct (Nat.leb_spec 12 (length s)); [|lia].
  unfold ret, decode_vec3. rewrite take_take, !take_drop_take by lia. reflexivity.
Qed.

Lemma fixed_read_ref : fixed 16 decode_ref read_ref.
Proof.
  intros s. unfold read_ref.
  fixed_field fixed_rU32. fixed_field fixed_rU32. fixed_field fixed_read_vec2.
  destruct (Nat.leb_spec 16 (length s)); [|lia].
  unfold ret, decode_ref, decode_vec2.
  rewrite !take_take, !take_drop_take, !drop_drop by lia. reflexivity.
Qed.

Lemma fixed_replicateM {A} n w (d : list byte -> A) m :
  fixed w d m -> fixed (n * w) (decode_n n w d) (replicateM n m).
Proof.
  intros H. induction n as [|n IH]; intros s.
  - reflexivity.
  - cbn [replicateM]. rewrite bind_eq, H.
    destruct (Nat.leb_spec w (length s)) as [L|L].
    + rewrite bind_eq, IH, length_drop.
      destruct (Nat.leb_spec (n * w) (length s - w));
        destruct (Nat.leb_spec (S n * w) (length s)); try lia; [|reflexivity].
      unfold ret. cbn [decode_n Nat.mul].
      rewrite take_take, Nat.min_l, drop_drop, take_drop_commute by lia.
      reflexivity.
    + destruct (Nat.leb_spec (S n * w) (length s)); [lia|reflexivity].
Qed.

Lemma length_decode_n {A} n w (d : list byte -> A) b : length (decode_n n w d b) = n.
Proof. revert b. induction n; intros b; cbn; [reflexivity | now rewrite IHn]. Qed.

Lemma fixed_nongrowing {A} w (d : list byte -> A) m : fixed w d m -> nongrowing m.
Proof.
  intros H s a r. rewrite H. destruct (Nat.leb_spec w (length s)); [|discriminate].
  intros [= _ <-]. rewrite length_drop. lia.
Qed.

Lemma fixed_stable {A} w (d : list byte -> A) m : fixed w d m -> stable m.
Proof.
  intros H s t a r. rewrite !H, length_app.
  destruct (Nat.leb_spec w (length s + length t)); [|discriminate].
  intros [= <- <-]. rewrite length_drop, length_app. intros L.
  destruct (Nat.leb_spec w (length s)).
  - exists (drop w s). rewrite drop_app_le, take_app_le by lia. tauto.
  - assert (t = []) as -> by (destruct t; [reflexivity | cbn in *; lia]).
    cbn in *. lia.
Qed.

Lemma fixed_detects {A} w (d : list byte -> A) m phi : fixed w d m -> detects phi m.
Proof.
  intros H s t a r. rewrite !H, length_app.
  destruct (Nat.leb_spec w (length s + length t)); [|discriminate].
  intros [= <- <-] _. rewrite length_drop, length_app. intros L.
  destruct (Nat.leb_spec w (length s)); [lia | reflexivity].
Qed.

Lemma lenient_nongrowing {A} n (v : list byte -> A) m : lenient n v m -> nongrowing m.
Proof. intros H s a r. rewrite H. intros [= _ <-]. rewrite length_drop. lia. Qed.

Lemma lenient_stable {A} n (v : list byte -> A) m : lenient n v m -> stable m.
Proof.
  intros H s t a r. rewrite !H. intros [= <- <-].
  rewrite length_drop, length_app. intros L.
  destruct (Nat.le_gt_cases n (length s)).
  - exists (drop n s). rewrite drop_app_le, take_app_le by lia. tauto.
  - assert (t = []) as -> by (destruct t; [reflexivity | cbn in *; lia]).
    exists (drop n s). rewrite !app_nil_r. tauto.
Qed.

Lemma nongrowing_ret {A} (a : A) : nongrowing (ret a).
Proof. intros s a' r [= _ <-]. lia. Qed.

Lemma stable_ret {A} (a : A) : stable (ret a).
Proof. intros s t a' r [= <- <-] _. exists s. tauto. Qed.

Lemma nongrowing_bind {A B} (m : reader A) (k : A -> reader B) :
  nongrowing m -> (forall a, nongrowing (k a)) -> nongrowing (bind m k).
Proof.
  intros Hm Hk s b r. rewrite bind_eq.
  destruct (m s) as [[a s']|] eqn:E; [|discriminate].
  intros E'. apply Hm in E. apply Hk in E'. lia.
Qed.

Lemma stable_bind {A B} (m : reader A) (k : A -> reader B) :
  stable m -> (forall a, nongrowing (k a)) -> (forall a, stable (k a)) ->
  stable (bind m k).
Proof.
  intros Hm Hn Hk s t b r. rewrite !bind_eq.
  destruct (m (s ++ t)) as [[a s']|] eqn:E; [|discriminate].
  intros E' L.
  assert (length r <= length s')%nat by (eapply Hn; eassumption).
  destruct (Hm _ _ _ _ E) as (r1 & -> & ->); [lia|].
  apply Hk; assumption.
Qed.

Lemma detects_bind {A B} (phi : B -> Prop) (m : reader A) (k : A -> reader B) :
  stable m -> detects (fun _ => True) m -> (forall a, detects phi (k a)) ->
  detects phi (bind m k).
Proof.
  intros Hs Hm Hk s t b r. rewrite !bind_eq.
  destruct (m (s ++ t)) as [[a s']|] eqn:E; [|discriminate].
  intros E' Hphi L.
  destruct (Nat.le_gt_cases (length t) (length s')) as [L'|L'].
  - destruct (Hs _ _ _ _ E L') as (r1 & -> & ->). eapply Hk; eassumption.
  - rewrite (Hm _ _ _ _ E I L'). reflexivity.
Qed.

Lemma nongrowing_replicateM {A} n (m : reader A) :
  nongrowing m -> nongrowing (replicateM n m).
Proof.
  intros H. induction n; cbn [replicateM].
  - apply nongrowing_ret.
  - apply nongrowing_bind; [assumption|]. intros a.
    apply nongrowing_bind; [assumption|]. intros l. apply nongrowing_ret.
Qed.

Lemma stable_replicateM {A} n (m : reader A) :
  nongrowing m -> stable m -> stable (replicateM n m).
Proof.
  intros Hn H. induction n; cbn [replicateM].
  - apply stable_ret.
  - apply stable_bind; [assumption| |]; intros a.
    + apply nongrowing_bind; [now apply nongrowing_replicateM|].
      intros l. apply nongrowing_ret.
    + apply stable_bind; [assumption| |]; intros l;
        [apply nongrowing_ret | apply stable_ret].
Qed.

Lemma length_replicateM {A} n (m : reader A) s l r :
  replicateM n m s = Ok (l, r) -> length l = n.
Proof.
  revert s l r. induction n as [|n IH]; intros s l r; cbn [replicateM].
  - intros [= <- _]. reflexivity.
  - rewrite bind_eq. destruct (m s) as [[a s']|]; [|discriminate].
    rewrite bind_eq. destruct (replicateM n m s') as [[l' s'']|] eqn:E; [|discriminate].
    intros [= <- _]. cbn. f_equal. eapply IH, E.
Qed.

(** ** The face record *)

Lemma face_header_eq s :
  face_header s =
  if (8 <=? length s)%nat
  then Ok ((le_value (take 4 (drop 4 s)),
            str_or (cstr (take 13 (drop 34 s))) "i76_default"), drop 55 s)
  else Raise struct_error.
Proof.
  unfold face_header.
  fixed_field fixed_rU32. fixed_field fixed_rU32.
  destruct (Nat.leb_spec 8 (length s)); [|lia].
  cbv [bind f_read rCSTR ret]. rewrite !drop_drop. reflexivity.
Qed.

Lemma read_face_eq s :
  read_face s =
  if (8 <=? length s)%nat then
    let nv := N.to_nat (le_value (take 4 (drop 4 s))) in
    if (nv * 16 <=? length (drop 55 s))%nat
    then Ok ({| tex := str_or (cstr (take 13 (drop 34 s))) "i76_default";
                refs := decode_n nv 16 decode_ref (take (nv * 16) (drop 55 s)) |},
             drop (nv * 16) (drop 55 s))
    else Raise struct_error
  else Raise struct_error.
Proof.
  unfold read_face. rewrite bind_eq, face_header_eq.
  destruct (Nat.leb_spec 8 (length s)); [|reflexivity].
  cbn [fst snd]. rewrite bind_eq. erewrite fixed_replicateM by apply fixed_read_ref.
  cbv zeta. destruct (Nat.leb _ (length (drop 55 s))); reflexivity.
Qed.

Create HintDb reader.

Lemma nongrowing_rU32 : nongrowing rU32.
Proof. exact (fixed_nongrowing _ _ _ fixed_rU32). Qed.
Lemma stable_rU32 : stable rU32.
Proof. exact (fixed_stable _ _ _ fixed_rU32). Qed.
Lemma nongrowing_read_ref : nongrowing read_ref.
Proof. exact (fixed_nongrowing _ _ _ fixed_read_ref). Qed.
Lemma stable_read_ref : stable read_ref.
Proof. exact (fixed_stable _ _ _ fixed_read_ref). Qed.
Lemma nongrowing_f_read n : nongrowing (f_read n).
Proof. exact (lenient_nongrowing _ _ _ (lenient_f_read n)). Qed.
Lemma stable_f_read n : stable (f_read n).
Proof. exact (lenient_stable _ _ _ (lenient_f_read n)). Qed.
Lemma nongrowing_rCSTR n : nongrowing (rCSTR n).
Proof. exact (lenient_nongrowing _ _ _ (lenient_rCSTR n)). Qed.
Lemma stable_rCSTR n : stable (rCSTR n).
Proof. exact (lenient_stable _ _ _ (lenient_rCSTR n)). Qed.

#[local] Hint Resolve nongrowing_ret stable_ret nongrowing_bind stable_bind
  nongrowing_replicateM stable_replicateM nongrowing_rU32 stable_rU32
  nongrowing_read_ref stable_read_ref nongrowing_f_read stable_f_read
  nongrowing_rCSTR stable_rCSTR : reader.

Lemma nongrowing_read_face : nongrowing read_face.
Proof. unfold read_face, face_header. auto 30 with reader. Qed.

Lemma stable_read_face : stable read_face.
Proof. unfold read_face, face_header. auto 30 with reader. Qed.

(** A face record cut short: the read raises, unless the face has no corner,
    in which case the stream just ends inside the fixed part. *)
Lemma read_face_cut s t f r :
  read_face (s ++ t) = Ok (f, r) -> (length r < length t)%nat ->
  read_face s = Raise struct_error
  \/ (refs f = [] /\ exists f', read_face s = Ok (f', [])).
Proof.
  rewrite !read_face_eq. cbv zeta. rewrite !length_drop, length_app.
  destruct (Nat.leb_spec 8 (length s + length t)); [|discriminate].
  destruct (Nat.leb_spec 8 (length s)) as [L8|L8]; [|intros; now left].
  rewrite (drop_app_le s t 4), (take_app_le (drop 4 s) t 4)
    by (rewrite ?length_drop; lia).
  set (nv := N.to_nat _).
  destruct (Nat.leb_spec (nv * 16) (length s + length t - 55)); [|discriminate].
  intros [= <- <-]. rewrite !length_drop, length_app. intros L.
  destruct (Nat.leb_spec (nv * 16) (length s - 55)); [|now left].
  right. clearbody nv. assert (nv = 0%nat) as -> by lia. split; [reflexivity|].
  eexists. change (0 * 16)%nat with 0%nat. rewrite drop_0, (drop_ge s 55) by lia. reflexivity.
Qed.

Lemma read_face_nil : read_face [] = Raise struct_error.
Proof. reflexivity. Qed.

Definition ends_with_corner (fs : list face) : Prop :=
  exists f, last fs = Some f /\ refs f <> [].

Lemma read_faces_cut n : detects ends_with_corner (replicateM n read_face).
Proof.
  induction n as [|n IH]; intros s t fs r; cbn [replicateM].
  - intros [= <- _] (f & Hl & _). discriminate.
  - rewrite !bind_eq.
    destruct (read_face (s ++ t)) as [[f r1]|] eqn:E; [|discriminate].
    rewrite bind_eq.
    destruct (replicateM n read_face r1) as [[l r2]|] eqn:E'; [|discriminate].
    intros [= <- <-] (f0 & Hl & Hf) L.
    destruct (Nat.le_gt_cases (length t) (length r1)) as [L1|L1].
    + destruct (stable_read_face _ _ _ _ E L1) as (r1' & -> & ->).
      rewrite bind_eq.
      destruct l as [|f1 l].
      * apply length_replicateM in E' as E''. destruct n; [|discriminate].
        cbn in E'. injection E' as <-. lia.
      * rewrite (IH r1' t (f1 :: l) r2 E'); [reflexivity| |assumption].
        exists f0. split; [|assumption]. rewrite <- Hl. reflexivity.
    + destruct (read_face_cut _ _ _ _ E L1) as [-> | (Hnil & f' & ->)]; [reflexivity|].
      rewrite bind_eq. destruct n as [|n].
      * cbn in E'. injection E' as <- <-. cbn in Hl. injection Hl as <-. contradiction.
      * cbn [replicateM]. rewrite bind_eq, read_face_nil. reflexivity.
Qed.

Lemma parse_tail_cut path nm vct fct :
  detects (fun g => ends_with_corner (faces g)) (parse_tail path nm vct fct).
Proof.
  unfold parse_tail.
  pose proof (fixed_replicateM (N.to_nat vct) _ _ _ fixed_read_vec3) as Hv.
  apply detects_bind; [eapply fixed_stable, Hv | eapply fixed_detects, Hv |].
  intros vs.
  apply detects_bind; [eapply fixed_stable, Hv | eapply fixed_detects, Hv |].
  intros norms s t g r. rewrite !bind_eq.
  destruct (replicateM _ read_face (s ++ t)) as [[fs r1]|] eqn:E; [|discriminate].
  intros [= <- <-] Hphi L. cbn [faces] in Hphi.
  rewrite (read_faces_cut _ _ _ _ _ E Hphi L). reflexivity.
Qed.

(** Readers after the header: the stream holds its 36 bytes. *)
Ltac header_field F :=
  cbv beta iota; rewrite bind_eq, F, ?length_drop, ?drop_drop;
  match goal with
  | |- context [Nat.leb ?w ?n] => destruct (Nat.leb_spec w n); [|lia]
  end.

Lemma parse_body_eq path s :
  (36 <= length s)%nat ->
  parse_body path s =
  let vct := le_value (take 4 (drop 24 s)) in
  let fct := le_value (take 4 (drop 28 s)) in
  if negb (counts_ok vct fct)
  then Raise (ValueError ("Unreasonable counts v=" ++ dec vct ++ " f=" ++ dec fct))
  else parse_tail path (cstr (take 16 (drop 8 s))) vct fct (drop 36 s).
Proof.
  intros L. unfold parse_body.
  rewrite bind_eq. change (rCSTR 4 s) with (Ok (cstr (take 4 s), drop 4 s)).
  header_field fixed_rU32.
  cbv beta iota. rewrite bind_eq.
  change (rCSTR 16 (drop (4 + 4) s))
    with (Ok (cstr (take 16 (drop (4 + 4) s)), drop 16 (drop (4 + 4) s))).
  header_field fixed_rU32. header_field fixed_rU32. header_field fixed_rU32.
  cbv zeta. cbn [Nat.add].
  destruct (negb _); reflexivity.
Qed.

(** ** The decoder *)

(** C3, as the code has it: a face whose 13-byte texture field decodes to the
    empty string gets the texture name "i76_default". *)
Theorem empty_texture_name s f r :
  read_face s = Ok (f, r) ->
  cstr (take 13 (drop 34 s)) = EmptyString ->
  tex f = "i76_default".
Proof.
  rewrite read_face_eq. cbv zeta.
  destruct (8 <=? length s)%nat; [|discriminate].
  destruct (_ <=? length (drop 55 s))%nat; [|discriminate].
  intros [= <- _] ->. reflexivity.
Qed.

Lemma empty_texture_name_witness :
  read_face (zeros 55) = Ok ({| tex := "i76_default"; refs := [] |}, [])
  /\ tex {| tex := "i76_default"; refs := [] |} = "i76_default".
Proof.
  split; [vm_compute; reflexivity|].
  apply (empty_texture_name (zeros 55) _ []); vm_compute; reflexivity.
Defined.

(** C3, as the specification words it, does not hold: the all-zero texture
    field does not give the name "default". *)
Lemma empty_texture_is_not_default :
  exists f r, read_face (zeros 55) = Ok (f, r)
              /\ cstr (take 13 (drop 34 (zeros 55))) = EmptyString
              /\ tex f <> "default".
Proof.
  exists {| tex := "i76_default"; refs := [] |}, [].
  split; [vm_compute; reflexivity|]. split; [vm_compute; reflexivity|].
  cbn. discriminate.
Qed.

(** C4, as the code has it: the opaque block of a face record is 26 bytes
    (3 + 16 + 4 + 3), the texture field starts at offset 4 + 4 + 26 and the
    corner records at offset 4 + 4 + 26 + 13 + 4 + 4 = 55. *)
Theorem face_header_layout s nv t r :
  face_header s = Ok ((nv, t), r) ->
  nv = le_value (take 4 (drop 4 s))
  /\ t = str_or (cstr (take 13 (drop (4 + 4 + (3 + 16 + 4 + 3)) s))) "i76_default"
  /\ r = drop (4 + 4 + (3 + 16 + 4 + 3) + 13 + 4 + 4) s
  /\ (4 + 4 + (3 + 16 + 4 + 3) + 13 + 4 + 4 = 55)%nat.
Proof.
  rewrite face_header_eq. destruct (8 <=? length s)%nat; [|discriminate].
  intros [= <- <- <-]. repeat split.
Qed.

Lemma face_header_layout_witness :
  face_header chrome_record = Ok ((0, "chrome01"), [x01; x02])
  /\ [x01; x02] = drop (4 + 4 + (3 + 16 + 4 + 3) + 13 + 4 + 4) chrome_record.
Proof.
  split; [vm_compute; reflexivity|].
  apply (face_header_layout chrome_record 0 "chrome01" [x01; x02]).
  vm_compute; reflexivity.
Defined.

(** C4, as the specification words it, does not hold: after the fixed part
    of a record the stream stands at offset 55, not 57, and the texture name
    is not what a 28-byte block would leave at offset 36. *)
Lemma face_header_is_not_57_bytes :
  face_header chrome_record = Ok ((0, "chrome01"), drop 55 chrome_record)
  /\ drop 55 chrome_record <> drop 57 chrome_record
  /\ cstr (take 13 (drop (4 + 4 + 28) chrome_record)) <> "chrome01".
Proof.
  split; [vm_compute; reflexivity|]. split; vm_compute; discriminate.
Qed.

(** C5, as the code has it: when the last face of a file has at least one
    corner, every stream that stops before the end of the declared data
    makes the decoder raise ([struct.error], or the size error under 64
    bytes). *)
Theorem truncated_file_raises path content g rest p :
  parse_body path content = Ok (g, rest) ->
  ends_with_corner (faces g) ->
  p `prefix_of` content ->
  (length p < length content - length rest)%nat ->
  parse_geo_classic path p = Raise struct_error
  \/ parse_geo_classic path p = Raise (ValueError "File too small to be a GEO").
Proof.
  intros E Hlast [t ->] L. rewrite length_app in L.
  unfold parse_geo_classic.
  destruct (Nat.ltb_spec (length p) 64) as [L64|L64]; [now right|]. left.
  rewrite parse_body_eq in E by (rewrite length_app; lia).
  rewrite parse_body_eq by lia. cbv zeta in *.
  rewrite (drop_app_le p t 24), (take_app_le (drop 24 p) t 4),
    (drop_app_le p t 28), (take_app_le (drop 28 p) t 4),
    (drop_app_le p t 8), (take_app_le (drop 8 p) t 16),
    (drop_app_le p t 36) in E by (rewrite ?length_drop; lia).
  destruct (negb _); [discriminate|].
  rewrite (parse_tail_cut _ _ _ _ _ _ _ _ E Hlast); [reflexivity|]. lia.
Qed.

Lemma truncated_file_raises_witness :
  parse_geo_classic "a.geo" (removelast triangle_file) = Raise struct_error
  \/ parse_geo_classic "a.geo" (removelast triangle_file)
     = Raise (ValueError "File too small to be a GEO").
Proof.
  eapply (truncated_file_raises "a.geo" triangle_file _ []).
  - vm_compute. reflexivity.
  - eexists. split; [vm_compute; reflexivity | discriminate].
  - exists [x3f]. vm_compute. reflexivity.
  - vm_compute. lia.
Defined.

(** C5, as the specification words it, does not hold: [cornerless_file] is
    read to its last byte, and without that byte the decoder still returns
    the model; and [chrome_cornerless_file] cut in the middle of its texture
    field gives a model with the texture name cut short. *)
Lemma truncation_goes_unnoticed :
  parse_body "a.geo" cornerless_file
  = Ok ({| name := "a.geo"; verts := [(0, 0, 0)%float];
           faces := [{| tex := "i76_default"; refs := [] |}] |}, [])
  /\ parse_geo_classic "a.geo" (removelast cornerless_file)
     = Ok {| name := "a.geo"; verts := [(0, 0, 0)%float];
             faces := [{| tex := "i76_default"; refs := [] |}] |}
  /\ parse_body "a.geo" chrome_cornerless_file
     = Ok ({| name := "a.geo"; verts := [(0, 0, 0)%float];
              faces := [{| tex := "chrome01"; refs := [] |}] |}, [])
  /\ parse_geo_classic "a.geo" (take 97 chrome_cornerless_file)
     = Ok {| name := "a.geo"; verts := [(0, 0, 0)%float];
             faces := [{| tex := "chr"; refs := [] |}] |}.
Proof. repeat split; vm_compute; reflexivity. Qed.

(** C10: the corner count of a face is not checked against any bound.  Once
    the first eight bytes of a record are there, the read succeeds exactly
    when the stream holds the [nv] corner records of 16 bytes that the
    record declares, and it then returns [nv] corners; otherwise it raises
    [struct.error]. *)
Theorem corner_count_unchecked s :
  (8 <= length s)%nat ->
  let nv := le_value (take 4 (drop 4 s)) in
  ((16 * nv <= N.of_nat (length (drop 55 s)))%N ->
   exists f, read_face s = Ok (f, drop (N.to_nat nv * 16) (drop 55 s))
             /\ N.of_nat (length (refs f)) = nv)
  /\ ((N.of_nat (length (drop 55 s)) < 16 * nv)%N ->
      read_face s = Raise struct_error).
Proof.
  intros L nv. rewrite read_face_eq. cbv zeta. fold nv.
  destruct (Nat.leb_spec 8 (length s)); [|lia].
  destruct (Nat.leb_spec (N.to_nat nv * 16) (length (drop 55 s))); split; intros Hn;
    try lia; [|reflexivity].
  eexists. split; [reflexivity|]. cbn [refs]. rewrite length_decode_n. lia.
Qed.

Lemma corner_count_unchecked_witness :
  read_face greedy_record = Raise struct_error.
Proof.
  refine (proj2 (corner_count_unchecked greedy_record _) _).
  - vm_compute. lia.
  - vm_compute. reflexivity.
Defined.

(** ** What the decoder keeps of the vertex and normal blocks *)

Lemma parse_tail_eq path nm vct fct s :
  parse_tail path nm vct fct s =
  let v := N.to_nat vct in
  if (v * 12 + v * 12 <=? length s)%nat then
    match replicateM (N.to_nat fct) read_face (drop (v * 12 + v * 12) s) with
    | Ok (fs, r) =>
        Ok ({| name := str_or nm (basename path);
               verts := decode_n v 12 decode_vec3 (take (v * 12) s);
               faces := fs |}, r)
    | Raise e => Raise e
    end
  else Raise struct_error.
Proof.
  unfold parse_tail. cbv zeta.
  pose proof (fixed_replicateM (N.to_nat vct) _ _ _ fixed_read_vec3) as Hv.
  rewrite bind_eq, Hv.
  destruct (Nat.leb_spec (N.to_nat vct * 12) (length s)).
  - rewrite bind_eq, Hv, length_drop.
    destruct (Nat.leb_spec (N.to_nat vct * 12) (length s - N.to_nat vct * 12));
      destruct (Nat.leb_spec (N.to_nat vct * 12 + N.to_nat vct * 12) (length s));
      try lia; [|reflexivity].
    rewrite bind_eq, drop_drop. reflexivity.
  - destruct (Nat.leb_spec (N.to_nat vct * 12 + N.to_nat vct * 12) (length s));
      [lia | reflexivity].
Qed.

Lemma take_drop_app_take {A} (l x : list A) n k m :
  (k + n <= m)%nat -> (m <= length l)%nat ->
  take n (drop k (take m l ++ x)) = take n (drop k l).
Proof.
  intros H1 H2.
  rewrite drop_app_le by (rewrite length_take; lia).
  rewrite take_app_le by (rewrite length_drop, length_take; lia).
  apply take_drop_take. assumption.
Qed.

(** C2, as the code has it: the decoder reads the [vertex_count] normal
    vectors that follow the vertex block, in the order of the vertices, and
    drops them: the model has the name, the [vertex_count] vertices and the
    faces, and is the same whatever the normal block holds. *)
Theorem normals_read_and_dropped path content g :
  parse_geo_classic path content = Ok g ->
  let v := N.to_nat (le_value (take 4 (drop 24 content))) in
  let f := N.to_nat (le_value (take 4 (drop 28 content))) in
  verts g = decode_n v 12 decode_vec3 (take (v * 12) (drop 36 content))
  /\ length (verts g) = v
  /\ replicateM v read_vec3 (drop (36 + v * 12) content)
     = Ok (file_normals content, drop (36 + v * 12 + v * 12) content)
  /\ length (file_normals content) = v
  /\ (exists rest, replicateM f read_face (drop (36 + v * 12 + v * 12) content)
                   = Ok (faces g, rest))
  /\ (forall block, length block = (v * 12)%nat ->
        parse_geo_classic path
          (take (36 + v * 12) content ++ block ++ drop (36 + v * 12 + v * 12) content)
        = Ok g).
Proof.
  unfold parse_geo_classic.
  destruct (Nat.ltb_spec (length content) 64) as [L|L]; [discriminate|].
  rewrite parse_body_eq by lia. cbv zeta.
  set (vct := le_value (take 4 (drop 24 content))).
  set (fct := le_value (take 4 (drop 28 content))).
  destruct (negb (counts_ok vct fct)) eqn:C; [discriminate|].
  rewrite parse_tail_eq. cbv zeta. rewrite length_drop.
  set (v := N.to_nat vct). set (f := N.to_nat fct).
  destruct (Nat.leb_spec (v * 12 + v * 12) (length content - 36)) as [Lv|Lv];
    [|discriminate].
  rewrite drop_drop.
  destruct (replicateM f read_face (drop (36 + (v * 12 + v * 12)) content))
    as [[fs rest]|] eqn:EF; [|discriminate].
  intros [= <-]. cbn [verts faces].
  split; [reflexivity|]. split; [apply length_decode_n|].
  split.
  { rewrite (fixed_replicateM v _ _ _ fixed_read_vec3), length_drop.
    destruct (Nat.leb_spec (v * 12) (length content - (36 + v * 12))); [|lia].
    unfold file_normals. fold vct v. rewrite drop_drop. reflexivity. }
  split; [apply length_decode_n|].
  split.
  { exists rest. rewrite <- Nat.add_assoc. exact EF. }
  intros block Hb.
  set (c' := take _ content ++ block ++ drop _ content).
  assert (Lc : length c' = length content).
  { unfold c'. rewrite !length_app, length_take, length_drop. lia. }
  destruct (Nat.ltb_spec (length c') 64); [lia|].
  rewrite parse_body_eq by lia. cbv zeta.
  assert (Hvct : le_value (take 4 (drop 24 c')) = vct).
  { unfold c'. rewrite take_drop_app_take by lia. reflexivity. }
  assert (Hfct : le_value (take 4 (drop 28 c')) = fct).
  { unfold c'. rewrite take_drop_app_take by lia. reflexivity. }
  assert (Hnm : take 16 (drop 8 c') = take 16 (drop 8 content)).
  { unfold c'. rewrite take_drop_app_take by lia. reflexivity. }
  rewrite Hvct, Hfct, Hnm, C, parse_tail_eq. cbv zeta. fold v f.
  rewrite length_drop, Lc.
  destruct (Nat.leb_spec (v * 12 + v * 12) (length content - 36)); [|lia].
  rewrite drop_drop.
  assert (Hd : drop (36 + (v * 12 + v * 12)) c' = drop (36 + (v * 12 + v * 12)) content).
  { unfold c'. rewrite app_assoc, drop_app_length'; [f_equal; lia|].
    rewrite length_app, length_take. lia. }
  assert (Ht : take (v * 12) (drop 36 c') = take (v * 12) (drop 36 content)).
  { unfold c'. rewrite take_drop_app_take by lia. reflexivity. }
  rewrite Hd, Ht, EF. reflexivity.
Qed.

Lemma normals_read_and_dropped_witness :
  length (file_normals triangle_file) = 3%nat.
Proof.
  assert (H : parse_geo_classic "a.geo" triangle_file
              = Ok {| name := "a.geo";
                      verts := [(0, 0, 0); (0, 0, 0); (0, 0, 0)]%float;
                      faces := [{| tex := "chrome01";
                                   refs := [(0, 0, (0, 0)%float);
                                            (1, 0, (1, 0)%float);
                                            (2, 0, (0, 1)%float)] |}] |})
    by (vm_compute; reflexivity).
  pose proof (normals_read_and_dropped "a.geo" triangle_file _ H) as P.
  cbv zeta in P. apply P.
Defined.

(** C2, as the specification words it, does not hold: no reading of the
    model gives back the normals of the file, since two files that differ in
    their normals only give the same model. *)
Lemma model_has_no_normals :
  ~ exists normals_of : geo -> list vec3,
      forall content g, parse_geo_classic "a.geo" content = Ok g ->
                        normals_of g = file_normals content.
Proof.
  intros [normals_of H].
  assert (E : parse_geo_classic "a.geo" triangle_file
              = parse_geo_classic "a.geo" triangle_file') by (vm_compute; reflexivity).
  assert (O : exists g, parse_geo_classic "a.geo" triangle_file = Ok g)
    by (vm_compute; eexists; reflexivity).
  destruct O as [g O].
  pose proof (H _ _ O) as H1. rewrite E in O. pose proof (H _ _ O) as H2.
  rewrite H1 in H2.
  apply (f_equal (fun l => match l with
                           | (x, _, _) :: _ => PrimFloat.eqb x 0
                           | [] => true
                           end)) in H2.
  vm_compute in H2. discriminate.
Qed.

(** ** The fan of one face *)

Section Fan.

Variable rejects : list tri -> nat * nat * nat -> bool.
Variable vs : list vec3.

Lemma index_of_eq (r : ref) :
  index_of vs (fst (fst r))
  = if in_range vs r then Ok (N.to_nat (fst (fst r))) else Raise IndexError.
Proof. reflexivity. Qed.

Lemma try_triangle_eq mid a b c bm :
  try_triangle rejects vs mid a b c bm
  = if in_range vs a && in_range vs b && in_range vs c
    then Ok (accept rejects bm (corner_tri mid a b c))
    else Raise IndexError.
Proof.
  unfold try_triangle. rewrite !index_of_eq.
  destruct (in_range vs a), (in_range vs b), (in_range vs c); try reflexivity.
  unfold accept. cbn. destruct (rejects bm _); reflexivity.
Qed.

(** The loop of lines 104 to 114 from index [i] on, where [prev] is the
    corner at [i - 1] and [rest] the corners from [i] on. *)
Lemma fan_loop_eq mid (rs : list ref) c0 : forall rest i prev bm,
  rs !! (i - 1)%nat = Some prev -> drop i rs = rest ->
  fold_res (fun bm i =>
              match rs !! (i - 1)%nat, rs !! i with
              | Some b, Some c => try_triangle rejects vs mid c0 b c bm
              | _, _ => Raise IndexError
              end) (seq i (length rest)) bm
  = match rest with
    | [] => Ok bm
    | _ => if in_range vs c0 && in_range vs prev && forallb (in_range vs) rest
           then Ok (fold_left (accept rejects) (fan_from mid c0 prev rest) bm)
           else Raise IndexError
    end.
Proof.
  induction rest as [|c rest IH]; intros i prev bm Hp Hd; [reflexivity|].
  cbn [length seq fold_res].
  assert (Hc : rs !! i = Some c).
  { rewrite <- (Nat.add_0_r i), <- lookup_drop, Hd. reflexivity. }
  rewrite Hp, Hc, try_triangle_eq.
  destruct (in_range vs c0) eqn:E0; [|reflexivity].
  destruct (in_range vs prev) eqn:Ep; [|reflexivity].
  cbn [andb forallb].
  destruct (in_range vs c) eqn:Ec; [|reflexivity].
  cbn [andb]. rewrite (IH (S i) c).
  - rewrite Ec. destruct rest; reflexivity.
  - rewrite <- Hc. f_equal. lia.
  - replace (S i) with (i + 1)%nat by lia. rewrite <- drop_drop, Hd. reflexivity.
Qed.

Lemma triangulate_face_eq idx bm f :
  triangulate_face rejects vs idx bm f
  = if face_ok vs f
    then Ok (fold_left (accept rejects)
                       (fan_triangles (default 0%nat (idx !! tex f)) (refs f)) bm)
    else Raise IndexError.
Proof.
  unfold triangulate_face, face_ok.
  destruct (refs f) as [|c0 [|c1 [|c2 rest]]] eqn:E; try reflexivity.
  change (length (c0 :: c1 :: c2 :: rest) <? 3)%nat with false.
  cbn [orb].
  change ((c0 :: c1 :: c2 :: rest) !! 0%nat) with (Some c0). cbv beta iota.
  replace (length (c0 :: c1 :: c2 :: rest) - 2)%nat with (length (c2 :: rest))
    by (cbn [length]; lia).
  rewrite (fan_loop_eq _ _ c0 (c2 :: rest) 2 c1); [|reflexivity..].
  cbn [fan_triangles forallb]. rewrite !andb_assoc. reflexivity.
Qed.

End Fan.

(** ** The triangles of a model *)

Section Triangles.

Variable unique_name : list string -> string -> string.
Variable rejects : list tri -> nat * nat * nat -> bool.

Lemma build_tris_eq vs idx fs : forall bm,
  fold_res (triangulate_face rejects vs idx) fs bm
  = if forallb (face_ok vs) fs
    then Ok (fold_left
               (fun bm f =>
                  fold_left (accept rejects)
                            (fan_triangles (default 0%nat (idx !! tex f)) (refs f)) bm)
               fs bm)
    else Raise IndexError.
Proof.
  induction fs as [|f fs IH]; intros bm; [reflexivity|].
  cbn [fold_res forallb fold_left]. rewrite triangulate_face_eq.
  destruct (face_ok vs f); [|reflexivity]. apply IH.
Qed.

Lemma forallb_eq {A} (p q : A -> bool) l :
  (forall x, p x = q x) -> forallb p l = forallb q l.
Proof. intros H. induction l as [|x l IH]; cbn; [reflexivity | now rewrite H, IH]. Qed.

Lemma face_ok_length vs vs' f :
  length vs = length vs' -> face_ok vs f = face_ok vs' f.
Proof. unfold face_ok, in_range. intros ->. reflexivity. Qed.

Lemma fst_build_mesh g scale cache db :
  fst (build_mesh unique_name rejects g scale cache db)
  = let slots := snd (fold_left (slot_material unique_name) (faces g) (cache, db, [])) in
    if forallb (face_ok (verts g)) (faces g)
    then Ok {| positions := (fun p => verts_new (scale_vec scale p)) <$> verts g;
               ob_materials := slots;
               triangles :=
                 fold_left
                   (fun bm f =>
                      fold_left (accept rejects)
                        (fan_triangles (default 0%nat (mat_index_of slots !! tex f))
                                       (refs f)) bm)
                   (faces g) [] |}
    else Raise IndexError.
Proof.
  unfold build_mesh.
  destruct (fold_left _ (faces g) (cache, db, [])) as [[cache' db'] slots].
  cbn [fst snd]. rewrite build_tris_eq.
  rewrite (forallb_eq (face_ok ((fun p => verts_new (scale_vec scale p)) <$> verts g))
                      (face_ok (verts g))).
  - destruct (forallb _ _); reflexivity.
  - intros f. apply face_ok_length, length_fmap.
Qed.

Lemma snd_build_mesh g scale cache db :
  snd (build_mesh unique_name rejects g scale cache db)
  = fst (fold_left (slot_material unique_name) (faces g) (cache, db, [])).
Proof.
  unfold build_mesh.
  destruct (fold_left _ (faces g) (cache, db, [])) as [[cache' db'] slots].
  reflexivity.
Qed.

(** C1, what the code does: a corner whose vertex index is not below the
    number of vertices, in a face of three corners or more, makes the whole
    build raise [IndexError]; no triangle of the file is returned. *)
Theorem out_of_range_corner_aborts_build g scale cache db f r :
  f ∈ faces g -> (3 <= length (refs f))%nat -> r ∈ refs f ->
  (N.of_nat (length (verts g)) <= fst (fst r))%N ->
  fst (build_mesh unique_name rejects g scale cache db) = Raise IndexError.
Proof.
  intros Hf Hn Hr Hi. rewrite fst_build_mesh. cbv zeta.
  destruct (forallb (face_ok (verts g)) (faces g)) eqn:E; [|reflexivity].
  rewrite forallb_forall in E.
  apply list_elem_of_In, E in Hf. unfold face_ok in Hf.
  apply orb_true_iff in Hf as [Hf|Hf].
  - apply Nat.ltb_lt in Hf. lia.
  - rewrite forallb_forall in Hf. apply list_elem_of_In, Hf in Hr.
    unfold in_range in Hr. apply N.ltb_lt in Hr. lia.
Qed.

End Triangles.

Lemma out_of_range_corner_aborts_build_witness :
  fst (build_mesh keep_name bmesh_rejects quad_out_of_range 1 ∅ []) = Raise IndexError.
Proof.
  apply (out_of_range_corner_aborts_build keep_name bmesh_rejects quad_out_of_range
           1%float ∅ []
           {| tex := "chrome01";
              refs := [(0, 0, uv0); (1, 0, uv0); (2, 0, uv0); (4, 0, uv0)] |}
           (4, 0, uv0)).
  - apply list_elem_of_In. left. reflexivity.
  - cbn. lia.
  - apply list_elem_of_In. cbn. tauto.
  - cbn. lia.
Defined.

(** The batch on the file of that model: nothing is imported and the file
    is in the error list. *)
Lemma out_of_range_file_is_reported_failed :
  parse_geo_classic "q.geo" quad_out_of_range_file
  = Ok {| name := "q.geo";
          verts := [(0, 0, 0); (0, 0, 0); (0, 0, 0); (0, 0, 0)]%float;
          faces := [{| tex := "chrome01";
                       refs := [(0, 0, uv0); (1, 0, uv0); (2, 0, uv0); (4, 0, uv0)] |}] |}
  /\ imported (execute keep_name bmesh_rejects (one_file_disk quad_out_of_range_file)
                       1 Z_up ["q.geo"] []) = 0%nat
  /\ errors (execute keep_name bmesh_rejects (one_file_disk quad_out_of_range_file)
                      1 Z_up ["q.geo"] [])
     = [("q.geo", "list index out of range")].
Proof. repeat split; vm_compute; reflexivity. Qed.

(** ** The fan on a mesh that accepts it *)

Lemma fan_from_elem mid c0 : forall rest prev t,
  t ∈ fan_from mid c0 prev rest ->
  exists p c, t = corner_tri mid c0 p c /\ c ∈ rest.
Proof.
  induction rest as [|c rest IH]; intros prev t; cbn [fan_from].
  - intros H. inversion H.
  - rewrite elem_of_cons. intros [-> | H].
    + exists prev, c. split; [reflexivity | left].
    + destruct (IH _ _ H) as (p & c' & -> & Hc). exists p, c'. split; [reflexivity | now right].
Qed.

Lemma existsb_false {A} (p : A -> bool) l :
  (forall x, x ∈ l -> p x = false) -> existsb p l = false.
Proof.
  induction l as [|x l IH]; intros H; cbn; [reflexivity|].
  rewrite (H x) by left. apply IH. intros y Hy. apply H. now right.
Qed.

Lemma accept_fan_from mid c0 : forall rest prev bm,
  NoDup ((fun r : ref => fst (fst r)) <$> c0 :: prev :: rest) ->
  (forall t u, t ∈ fan_from mid c0 prev rest -> u ∈ bm ->
               same_verts (tri_verts t) (tri_verts u) = false) ->
  fold_left (accept bmesh_rejects) (fan_from mid c0 prev rest) bm
  = bm ++ fan_from mid c0 prev rest.
Proof.
  induction rest as [|c rest IH]; intros prev bm Hnd Hfresh; cbn [fan_from fold_left].
  - symmetry. apply app_nil_r.
  - rewrite !fmap_cons in Hnd.
    apply NoDup_cons in Hnd as [H0 Hnd].
    apply NoDup_cons in Hnd as [Hp Hnd].
    apply NoDup_cons in Hnd as [Hc Hnd].
    apply not_elem_of_cons in H0 as [H0p H0].
    apply not_elem_of_cons in H0 as [H0c H0r].
    apply not_elem_of_cons in Hp as [Hpc Hpr].
    assert (Hacc : accept bmesh_rejects bm (corner_tri mid c0 prev c)
                   = bm ++ [corner_tri mid c0 prev c]).
    { unfold accept, bmesh_rejects. cbn [tri_verts corner_tri].
      rewrite (proj2 (Nat.eqb_neq _ _)) by (intros E; apply N2Nat.inj in E; contradiction).
      rewrite (proj2 (Nat.eqb_neq _ _)) by (intros E; apply N2Nat.inj in E; contradiction).
      rewrite (proj2 (Nat.eqb_neq _ _)) by (intros E; apply N2Nat.inj in E; contradiction).
      rewrite existsb_false; [reflexivity|].
      intros u Hu. apply (Hfresh (corner_tri mid c0 prev c) u); [left | assumption]. }
    rewrite Hacc, IH.
    + rewrite <- app_assoc. reflexivity.
    + rewrite !fmap_cons. repeat (apply NoDup_cons; split); try assumption.
      rewrite !not_elem_of_cons. tauto.
    + intros t u Ht. rewrite elem_of_app, list_elem_of_singleton. intros [Hu | ->].
      * apply Hfresh; [right; assumption | assumption].
      * destruct (fan_from_elem _ _ _ _ _ Ht) as (p & c' & -> & Hc').
        unfold same_verts. cbn [tri_verts corner_tri].
        rewrite (bool_decide_eq_false_2 (N.to_nat (fst (fst c')) ∈ _)).
        { rewrite !andb_false_r. reflexivity. }
        rewrite !elem_of_cons, elem_of_nil.
        intros [E | [E | [E | []]]]; apply N2Nat.inj in E.
        -- apply H0r. rewrite <- E. apply list_elem_of_fmap. eauto.
        -- apply Hpr. rewrite <- E. apply list_elem_of_fmap. eauto.
        -- apply Hc. rewrite <- E. apply list_elem_of_fmap. eauto.
Qed.

(** C6, as the code has it.  A face of fewer than three corners gives no
    triangle and no error.  For a face whose corners are all in range, the
    builder goes through the fan triangles (c0, c_(i-1), c_i), i from 2 to
    n - 1, in order, and keeps each one the mesh accepts, with the UV pairs
    of its corners.  When moreover the vertex indices of the corners are
    pairwise distinct and the mesh has no face on the vertices of a fan
    triangle, the triangles added are exactly the fan. *)
Theorem fan_triangulation rejects vs idx bm f :
  ((length (refs f) < 3)%nat -> triangulate_face rejects vs idx bm f = Ok bm)
  /\ (forallb (in_range vs) (refs f) = true ->
      triangulate_face rejects vs idx bm f
      = Ok (fold_left (accept rejects)
                      (fan_triangles (default 0%nat (idx !! tex f)) (refs f)) bm))
  /\ (forallb (in_range vs) (refs f) = true ->
      NoDup ((fun r : ref => fst (fst r)) <$> refs f) ->
      (forall t u, t ∈ fan_triangles (default 0%nat (idx !! tex f)) (refs f) -> u ∈ bm ->
                   same_verts (tri_verts t) (tri_verts u) = false) ->
      triangulate_face bmesh_rejects vs idx bm f
      = Ok (bm ++ fan_triangles (default 0%nat (idx !! tex f)) (refs f))).
Proof.
  split; [|split].
  - intros H. rewrite triangulate_face_eq. unfold face_ok.
    rewrite (proj2 (Nat.ltb_lt _ _) H). cbn [orb].
    destruct (refs f) as [|c0 [|c1 [|c2 rest]]]; cbn in H |- *; try reflexivity. lia.
  - intros H. rewrite triangulate_face_eq. unfold face_ok. rewrite H, orb_true_r.
    reflexivity.
  - intros H Hnd Hfresh. rewrite triangulate_face_eq. unfold face_ok.
    rewrite H, orb_true_r. f_equal.
    destruct (refs f) as [|c0 [|c1 rest]]; cbn [fan_triangles fold_left];
      try (symmetry; apply app_nil_r).
    apply accept_fan_from; assumption.
Qed.

Lemma fan_triangulation_witness :
  triangulate_face bmesh_rejects quad_verts ∅ [] quad_face
  = Ok [{| tri_verts := (0, 1, 2)%nat; material_index := 0; smooth := true;
           tri_uvs := ((0, 0), (1, 0), (1, 1))%float |};
        {| tri_verts := (0, 2, 3)%nat; material_index := 0; smooth := true;
           tri_uvs := ((0, 0), (1, 1), (0, 1))%float |}].
Proof.
  refine (proj2 (proj2 (fan_triangulation bmesh_rejects quad_verts ∅ [] quad_face)) _ _ _).
  - vm_compute. reflexivity.
  - vm_compute.
    repeat (apply NoDup_cons_2;
            [rewrite ?elem_of_cons, elem_of_nil; intuition discriminate|]).
    apply NoDup_nil_2.
  - intros t u _ Hu. inversion Hu.
Defined.

(** C6, as the specification words it, does not hold: each face of
    [folded_model] has three corners in range, so the fans hold three
    triangles, and the builder returns one: the mesh refuses the repeated
    face and the triangle that uses a vertex twice, and the builder goes
    on. *)
Lemma fan_triangles_can_be_refused :
  (res_map triangles (fst (build_mesh keep_name bmesh_rejects folded_model 1 ∅ []))
   = Ok [{| tri_verts := (0, 1, 2)%nat; material_index := 0; smooth := true;
            tri_uvs := (uv0, uv0, uv0) |}])
  /\ length (concat (fan_triangles 0 <$> (refs <$> faces folded_model))) = 3%nat.
Proof. split; vm_compute; reflexivity. Qed.

(** ** The material cache *)

Section Cache.

Variable unique_name : list string -> string -> string.
Variable rejects : list tri -> nat * nat * nat -> bool.

Lemma slot_material_sub st f :
  fst (fst st) ⊆ fst (fst (slot_material unique_name st f)).
Proof.
  destruct st as [[cache db] slots]. unfold slot_material. cbn [fst].
  destruct (cache !! tex f) as [m|] eqn:E.
  - destruct (bool_decide _); reflexivity.
  - unfold materials_new. destruct (bool_decide _); cbn [fst];
      apply insert_subseteq; assumption.
Qed.

Lemma slot_material_dom st f :
  dom (fst (fst (slot_material unique_name st f))) = dom (fst (fst st)) ∪ {[tex f]}.
Proof.
  destruct st as [[cache db] slots]. unfold slot_material. cbn [fst].
  destruct (cache !! tex f) as [m|] eqn:E.
  - apply elem_of_dom_2 in E. destruct (bool_decide _); cbn [fst]; set_solver.
  - unfold materials_new. destruct (bool_decide _); cbn [fst];
      rewrite dom_insert_L; set_solver.
Qed.

Lemma slot_materials_sub fs : forall st,
  fst (fst st) ⊆ fst (fst (fold_left (slot_material unique_name) fs st)).
Proof.
  induction fs as [|f fs IH]; intros st; cbn [fold_left]; [reflexivity|].
  etrans; [apply slot_material_sub | apply IH].
Qed.

Lemma slot_materials_dom fs : forall st,
  dom (fst (fst (fold_left (slot_material unique_name) fs st)))
  = dom (fst (fst st)) ∪ list_to_set (tex <$> fs).
Proof.
  induction fs as [|f fs IH]; intros st; cbn [fold_left].
  - cbn. set_solver.
  - rewrite IH, slot_material_dom, fmap_cons, list_to_set_cons. set_solver.
Qed.

Lemma build_all_sub scale gs : forall st,
  fst st ⊆ fst (build_all unique_name rejects scale gs st).
Proof.
  unfold build_all.
  induction gs as [|g gs IH]; intros st; cbn [fold_left]; [reflexivity|].
  etrans; [|apply IH]. rewrite snd_build_mesh.
  apply (slot_materials_sub (faces g) (fst st, snd st, [])).
Qed.

Lemma build_all_dom scale gs : forall st,
  dom (fst (build_all unique_name rejects scale gs st))
  = dom (fst st) ∪ list_to_set (tex <$> concat (faces <$> gs)).
Proof.
  unfold build_all.
  induction gs as [|g gs IH]; intros st; cbn [fold_left].
  - cbn. set_solver.
  - rewrite IH, snd_build_mesh, slot_materials_dom.
    rewrite fmap_cons. cbn [concat]. rewrite fmap_app, list_to_set_app_L.
    cbn [fst]. set_solver.
Qed.

(** C7: over the builds of a batch, in a row on one cache, an entry of the
    cache is never changed; the texture names in the cache at the end are
    those it had at the start and those of the faces met, one entry each;
    and the material a face is given when its file is built is the one the
    cache holds for its texture name at the end, so faces with one texture
    name share one material, across files. *)
Theorem material_cache_is_shared scale gs cache db :
  cache ⊆ fst (build_all unique_name rejects scale gs (cache, db))
  /\ dom (fst (build_all unique_name rejects scale gs (cache, db)))
     = dom cache ∪ list_to_set (tex <$> concat (faces <$> gs))
  /\ (forall gs1 g gs2 f, gs = gs1 ++ g :: gs2 -> f ∈ faces g ->
        exists m,
          fst (build_all unique_name rejects scale (gs1 ++ [g]) (cache, db)) !! tex f = Some m
          /\ fst (build_all unique_name rejects scale gs (cache, db)) !! tex f = Some m).
Proof.
  split; [apply (build_all_sub scale gs (cache, db))|].
  split; [apply (build_all_dom scale gs (cache, db))|].
  intros gs1 g gs2 f -> Hf.
  assert (Hd : tex f ∈ dom (fst (build_all unique_name rejects scale (gs1 ++ [g]) (cache, db)))).
  { rewrite build_all_dom. apply elem_of_union_r, elem_of_list_to_set.
    apply list_elem_of_fmap. exists f. split; [reflexivity|].
    rewrite fmap_app, concat_app. apply elem_of_app. right. cbn.
    rewrite app_nil_r. assumption. }
  apply elem_of_dom in Hd as [m Hm]. exists m. split; [assumption|].
  replace (gs1 ++ g :: gs2) with ((gs1 ++ [g]) ++ gs2) by (rewrite <- app_assoc; reflexivity).
  unfold build_all at 1. rewrite fold_left_app.
  eapply lookup_weaken; [exact Hm|]. apply build_all_sub.
Qed.

End Cache.

(** ** The batch *)

Section BatchReport.

Variable unique_name : list string -> string -> string.
Variable rejects : list tri -> nat * nat * nat -> bool.
Variable fs : string -> option (list byte).
Variable scale : float.
Variable axis_up : up_axis.

(** Whether and how a file fails does not depend on the cache or on the
    materials of the session. *)
Lemma import_file_error st path :
  match fst (import_file unique_name rejects fs scale axis_up st path) with
  | Ok _ => None
  | Raise e => Some e
  end = import_error unique_name rejects fs scale axis_up path.
Proof.
  unfold import_error, import_file.
  destruct (fs path) as [content|]; [|reflexivity].
  destruct (parse_geo_classic path content) as [g|e]; [|reflexivity].
  pose proof (fst_build_mesh unique_name rejects g scale (fst st) (snd st)) as H1.
  pose proof (fst_build_mesh unique_name rejects g scale ∅ []) as H2.
  cbv zeta in H1, H2. cbn [fst snd].
  destruct (build_mesh unique_name rejects g scale (fst st) (snd st)) as [r1 st1].
  destruct (build_mesh unique_name rejects g scale ∅ []) as [r2 st2].
  cbn [fst] in *. subst r1 r2.
  destruct (forallb (face_ok (verts g)) (faces g)); reflexivity.
Qed.

Abbreviation error_entry := (error_entry unique_name rejects fs scale axis_up).

Lemma batch_step_fields b path :
  let b1 := batch_step unique_name rejects fs scale axis_up b path in
  match error_entry path with
  | Some entry =>
      errors b1 = errors b ++ [entry] /\ imported b1 = imported b
      /\ length (objects b1) = length (objects b)
  | None =>
      errors b1 = errors b /\ imported b1 = S (imported b)
      /\ length (objects b1) = S (length (objects b))
  end.
Proof.
  cbv zeta. unfold error_entry.
  rewrite <- (import_file_error (mat_cache b, bpy_materials b) path).
  unfold batch_step.
  destruct (import_file _ _ _ _ _ _ path) as [[o|e] [cache' db']];
    cbn [fst errors imported objects].
  - rewrite length_app. cbn [length]. repeat split. lia.
  - repeat split.
Qed.

Lemma batch_steps paths : forall b,
  let b' := fold_left (batch_step unique_name rejects fs scale axis_up) paths b in
  errors b' = errors b ++ omap error_entry paths
  /\ (imported b' + length (omap error_entry paths) = imported b + length paths)%nat
  /\ (length (objects b') + length (omap error_entry paths)
      = length (objects b) + length paths)%nat.
Proof.
  induction paths as [|p paths IH]; intros b; cbn [fold_left omap list_omap length].
  - cbv zeta. rewrite app_nil_r. repeat split; reflexivity.
  - specialize (IH (batch_step unique_name rejects fs scale axis_up b p)).
    pose proof (batch_step_fields b p) as Hs.
    cbv zeta in IH, Hs |- *. destruct IH as (IH1 & IH2 & IH3).
    rewrite IH1.
    destruct (error_entry p) as [entry|]; destruct Hs as (-> & H2 & H3).
    + rewrite <- app_assoc. cbn [app length]. repeat split; lia.
    + repeat split; lia.
Qed.

(** C9: the batch goes through every path.  The paths that fail, and they
    only, are in the error list, each with the text of its exception and in
    the order of the paths; every other path is counted as imported and has
    its object; a failure never stops the loop. *)
Theorem batch_attempts_every_path paths db :
  let b := execute unique_name rejects fs scale axis_up paths db in
  errors b = omap error_entry paths
  /\ (imported b + length (errors b) = length paths)%nat
  /\ length (objects b) = imported b.
Proof.
  cbv zeta. unfold execute.
  destruct (batch_steps paths
              {| imported := 0; errors := []; objects := [];
                 mat_cache := ∅; bpy_materials := db |}) as (H1 & H2 & H3).
  cbv zeta in H1, H2, H3. cbn [errors imported objects length app] in H1, H2, H3.
  rewrite H1. repeat split; lia.
Qed.

Lemma batch_step_cache b path :
  let b1 := batch_step unique_name rejects fs scale axis_up b path in
  (mat_cache b1, bpy_materials b1)
  = build_all unique_name rejects scale (parsed_models fs [path])
              (mat_cache b, bpy_materials b).
Proof.
  cbv zeta. unfold batch_step, import_file, parsed_models, build_all.
  cbn [omap list_omap fst snd].
  destruct (fs path) as [content|]; [|reflexivity].
  destruct (parse_geo_classic path content) as [g|e]; [|reflexivity].
  cbn [fold_left fst snd].
  destruct (build_mesh unique_name rejects g scale (mat_cache b) (bpy_materials b))
    as [[o|e] [cache' db']]; reflexivity.
Qed.

Lemma parsed_models_cons path paths :
  parsed_models fs (path :: paths) = parsed_models fs [path] ++ parsed_models fs paths.
Proof.
  unfold parsed_models. cbn [omap list_omap].
  destruct (fs path) as [content|]; [|reflexivity].
  destruct (parse_geo_classic path content); reflexivity.
Qed.

(** The cache a batch ends with is the cache of the builds of the files
    that were decoded, in a row from the empty cache. *)
Lemma execute_cache_is_build_all paths db :
  let b := execute unique_name rejects fs scale axis_up paths db in
  (mat_cache b, bpy_materials b)
  = build_all unique_name rejects scale (parsed_models fs paths) (∅, db).
Proof.
  cbv zeta. unfold execute.
  change (∅, db) with (mat_cache {| imported := 0; errors := []; objects := [];
                                    mat_cache := ∅; bpy_materials := db |},
                       bpy_materials {| imported := 0; errors := []; objects := [];
                                        mat_cache := ∅; bpy_materials := db |}).
  generalize {| imported := 0; errors := []; objects := [];
                mat_cache := ∅; bpy_materials := db |}.
  induction paths as [|p paths IH]; intros b; cbn [fold_left]; [reflexivity|].
  rewrite IH, parsed_models_cons.
  pose proof (batch_step_cache b p) as H. cbv zeta in H. rewrite H.
  unfold build_all. rewrite fold_left_app. reflexivity.
Qed.

End BatchReport.

(** Three files of which the second is truncated: two are imported, the
    error list has the entry of the second file only, and the cache ends
    with one material for the texture name the two files share. *)
Lemma three_files_second_truncated :
  let b := execute keep_name bmesh_rejects three_file_disk 1 Z_up
                   ["a.geo"; "b.geo"; "c.geo"] [] in
  imported b = 2%nat
  /\ errors b = [("b.geo", "unpack requires a buffer of 4 bytes")]
  /\ length (objects b) = 2%nat
  /\ mat_cache b = {[ "chrome01" := {| mat_id := 0; mat_name := "chrome01"; use_nodes := true |} ]}
  /\ report_msg b = "Imported 2 GEO file(s); 1 failed - check Console".
Proof. cbv zeta. repeat split; vm_compute; reflexivity. Qed.

(** * Further properties of the decoder *)

(** ** Counts, name and the fields that are not read into the model *)

Lemma parse_geo_classic_eq path content :
  parse_geo_classic path content =
  if (length content <? 64)%nat then Raise (ValueError "File too small to be a GEO")
  else
    let vct := le_value (take 4 (drop 24 content)) in
    let fct := le_value (take 4 (drop 28 content)) in
    if negb (counts_ok vct fct)
    then Raise (ValueError ("Unreasonable counts v=" ++ dec vct ++ " f=" ++ dec fct))
    else match parse_tail path (cstr (take 16 (drop 8 content))) vct fct (drop 36 content) with
         | Ok (g, _) => Ok g
         | Raise e => Raise e
         end.
Proof.
  unfold parse_geo_classic.
  destruct (Nat.ltb_spec (length content) 64); [reflexivity|].
  rewrite parse_body_eq by lia. cbv zeta. destruct (negb _); reflexivity.
Qed.

(** X1: a model is returned only for counts within the bounds, and it has as
    many vertices and faces as the header declares. *)
Theorem decoded_counts path content g :
  parse_geo_classic path content = Ok g ->
  let vct := le_value (take 4 (drop 24 content)) in
  let fct := le_value (take 4 (drop 28 content)) in
  (1 <= vct <= 2000000)%N /\ (1 <= fct <= 2000000)%N
  /\ length (verts g) = N.to_nat vct /\ length (faces g) = N.to_nat fct.
Proof.
  rewrite parse_geo_classic_eq. cbv zeta.
  destruct (length content <? 64)%nat; [discriminate|].
  destruct (counts_ok _ _) eqn:C; [|discriminate]. cbn [negb].
  rewrite parse_tail_eq. cbv zeta.
  destruct (_ <=? length (drop 36 content))%nat; [|discriminate].
  destruct (replicateM _ read_face _) as [[fs r]|] eqn:E; [|discriminate].
  intros [= <-]. cbn [verts faces].
  unfold counts_ok in C. rewrite !andb_true_iff, !N.leb_le in C.
  rewrite length_decode_n, (length_replicateM _ _ _ _ _ E). tauto.
Qed.

Lemma decoded_counts_witness :
  length (verts {| name := "a.geo"; verts := [(0, 0, 0)%float];
                   faces := [{| tex := "i76_default"; refs := [] |}] |}) = 1%nat.
Proof.
  assert (H : parse_geo_classic "a.geo" cornerless_file
              = Ok {| name := "a.geo"; verts := [(0, 0, 0)%float];
                      faces := [{| tex := "i76_default"; refs := [] |}] |})
    by (vm_compute; reflexivity).
  pose proof (decoded_counts _ _ _ H) as P. cbv zeta in P. apply P.
Defined.

(** X2: on a file of 64 bytes or more, a vertex or face count that is zero
    or above 2000000 raises [ValueError] with the two counts in its text,
    whatever the rest of the file holds. *)
Theorem unreasonable_counts_raise path content :
  (64 <= length content)%nat ->
  let vct := le_value (take 4 (drop 24 content)) in
  let fct := le_value (take 4 (drop 28 content)) in
  (vct = 0 \/ 2000000 < vct \/ fct = 0 \/ 2000000 < fct)%N ->
  parse_geo_classic path content
  = Raise (ValueError ("Unreasonable counts v=" ++ dec vct ++ " f=" ++ dec fct)).
Proof.
  intros L vct fct H. rewrite parse_geo_classic_eq. cbv zeta. fold vct fct.
  destruct (Nat.ltb_spec (length content) 64); [lia|].
  assert (C : counts_ok vct fct = false).
  { unfold counts_ok. rewrite !andb_false_iff, !N.leb_gt. lia. }
  rewrite C. reflexivity.
Qed.

Lemma unreasonable_counts_raise_witness :
  parse_geo_classic "a.geo" no_vertex_file
  = Raise (ValueError "Unreasonable counts v=0 f=1").
Proof.
  apply (unreasonable_counts_raise "a.geo" no_vertex_file).
  - vm_compute. lia.
  - left. vm_compute. reflexivity.
Defined.

Lemma length_string_of_list_byte b : String.length (string_of_list_byte b) = length b.
Proof.
  unfold string_of_list_byte. induction b as [|x b IH]; cbn; [reflexivity | now rewrite IH].
Qed.

Lemma length_before_nul b : (length (before_nul b) <= length b)%nat.
Proof.
  induction b as [|x b IH]; cbn; [lia|]. destruct (Byte.eqb x x00); cbn; lia.
Qed.

Lemma length_cstr b : (String.length (cstr b) <= length b)%nat.
Proof.
  unfold cstr, decode_ascii_ignore. rewrite length_string_of_list_byte.
  etrans; [apply List.filter_length_le | apply length_before_nul].
Qed.

Lemma before_nul_app pre post :
  x00 ∉ pre -> before_nul (pre ++ x00 :: post) = pre.
Proof.
  induction pre as [|x pre IH]; intros H; cbn.
  - reflexivity.
  - apply not_elem_of_cons in H as [Hx Hpre].
    destruct (Byte.eqb x x00) eqn:E.
    + apply Byte.byte_dec_bl in E. congruence.
    + rewrite IH by assumption. reflexivity.
Qed.

(** X3: a string field is read whole and never raises; the text is at most
    as long as the field, and what follows the first NUL byte of the field
    (the terminator and the padding) has no part in it. *)
Theorem rCSTR_stops_at_nul n s t r :
  rCSTR n s = Ok (t, r) ->
  r = drop n s
  /\ (String.length t <= n)%nat
  /\ (forall pre post, take n s = pre ++ x00 :: post -> x00 ∉ pre ->
        t = decode_ascii_ignore pre).
Proof.
  intros [= <- <-]. split; [reflexivity|]. split.
  - etrans; [apply length_cstr|]. rewrite length_take. lia.
  - intros pre post -> H. unfold cstr. rewrite before_nul_app by assumption. reflexivity.
Qed.

Lemma rCSTR_stops_at_nul_witness :
  "Car" = decode_ascii_ignore (ascii_bytes "Car").
Proof.
  refine (proj2 (proj2 (rCSTR_stops_at_nul 16 (ascii_bytes "Car" ++ x00 :: ascii_bytes "junk")
                          "Car" [] _)) (ascii_bytes "Car") (ascii_bytes "junk") _ _).
  - vm_compute. reflexivity.
  - vm_compute. reflexivity.
  - change (x00 ∉ [x43; x61; x72]).
    rewrite !elem_of_cons, elem_of_nil. intuition discriminate.
Defined.

(** X4: the name of the model is the text of the 16-byte field at offset 8,
    of 16 characters at most, and the base name of the path when that text
    is empty. *)
Theorem model_name_fallback path content g :
  parse_geo_classic path content = Ok g ->
  (cstr (take 16 (drop 8 content)) = EmptyString -> name g = basename path)
  /\ (cstr (take 16 (drop 8 content)) <> EmptyString ->
      name g = cstr (take 16 (drop 8 content))
      /\ (String.length (name g) <= 16)%nat).
Proof.
  rewrite parse_geo_classic_eq. cbv zeta.
  destruct (length content <? 64)%nat; [discriminate|].
  destruct (negb _); [discriminate|].
  rewrite parse_tail_eq. cbv zeta.
  destruct (_ <=? length (drop 36 content))%nat; [|discriminate].
  destruct (replicateM _ read_face _) as [[fs r]|]; [|discriminate].
  intros [= <-]. cbn [name]. split.
  - intros ->. reflexivity.
  - intros H. destruct (cstr (take 16 (drop 8 content))) eqn:E; [contradiction|].
    cbn [str_or]. split; [reflexivity|].
    rewrite <- E. etrans; [apply length_cstr|]. rewrite length_take. lia.
Qed.

Lemma model_name_fallback_witness :
  name {| name := "a.geo"; verts := [(0, 0, 0)%float];
          faces := [{| tex := "i76_default"; refs := [] |}] |} = basename "dir/a.geo".
Proof.
  assert (H : parse_geo_classic "dir/a.geo" cornerless_file
              = Ok {| name := "a.geo"; verts := [(0, 0, 0)%float];
                      faces := [{| tex := "i76_default"; refs := [] |}] |})
    by (vm_compute; reflexivity).
  apply (proj1 (model_name_fallback _ _ _ H)). vm_compute. reflexivity.
Defined.

Lemma header_fields (a b c rest : list byte) :
  length a = 8%nat -> length b = 24%nat -> length c = 4%nat ->
  take 4 (drop 24 (a ++ b ++ c ++ rest)) = take 4 (drop 16 b)
  /\ take 4 (drop 28 (a ++ b ++ c ++ rest)) = take 4 (drop 20 b)
  /\ take 16 (drop 8 (a ++ b ++ c ++ rest)) = take 16 b
  /\ drop 36 (a ++ b ++ c ++ rest) = rest
  /\ length (a ++ b ++ c ++ rest) = (36 + length rest)%nat.
Proof.
  intros Ha Hb Hc.
  rewrite (drop_app_add' a _ 8 16), (drop_app_add' a _ 8 20),
    (drop_app_add' a _ 8 0), (drop_app_add' a _ 8 28) by (symmetry; assumption).
  rewrite (drop_app_le b _ 16), (drop_app_le b _ 20), drop_0 by lia.
  rewrite !take_app_le by (rewrite ?length_drop; lia).
  rewrite (drop_app_add' b _ 24 4) by (symmetry; assumption).
  rewrite (drop_app_length' c rest 4) by (symmetry; assumption).
  rewrite !length_app. repeat split. lia.
Qed.

(** X5: the tag, the word after it and the word after the counts are not
    checked and not kept: two files that differ in these twelve bytes only
    decode alike. *)
Theorem header_tag_not_validated path a a' b c c' rest :
  length a = 8%nat -> length a' = 8%nat -> length b = 24%nat ->
  length c = 4%nat -> length c' = 4%nat ->
  parse_geo_classic path (a ++ b ++ c ++ rest)
  = parse_geo_classic path (a' ++ b ++ c' ++ rest).
Proof.
  intros Ha Ha' Hb Hc Hc'. rewrite !parse_geo_classic_eq. cbv zeta.
  destruct (header_fields a b c rest Ha Hb Hc) as (-> & -> & -> & -> & ->).
  destruct (header_fields a' b c' rest Ha' Hb Hc') as (-> & -> & -> & -> & ->).
  reflexivity.
Qed.

Lemma header_tag_not_validated_witness :
  parse_geo_classic "a.geo" triangle_file
  = parse_geo_classic "a.geo"
      (ascii_bytes "GEO!ABCD" ++ take 24 (drop 8 triangle_file) ++ ascii_bytes "WXYZ"
       ++ drop 36 triangle_file).
Proof.
  apply (header_tag_not_validated "a.geo" (zeros 8) (ascii_bytes "GEO!ABCD")
           (take 24 (drop 8 triangle_file)) (zeros 4) (ascii_bytes "WXYZ")
           (drop 36 triangle_file)); vm_compute; reflexivity.
Defined.

Lemma face_fields (fid nvb op texb tr rest : list byte) :
  length fid = 4%nat -> length nvb = 4%nat -> length op = 26%nat ->
  length texb = 13%nat -> length tr = 8%nat ->
  take 4 (drop 4 (fid ++ nvb ++ op ++ texb ++ tr ++ rest)) = nvb
  /\ take 13 (drop 34 (fid ++ nvb ++ op ++ texb ++ tr ++ rest)) = texb
  /\ drop 55 (fid ++ nvb ++ op ++ texb ++ tr ++ rest) = rest
  /\ length (fid ++ nvb ++ op ++ texb ++ tr ++ rest) = (55 + length rest)%nat.
Proof.
  intros H1 H2 H3 H4 H5. repeat split.
  - rewrite (drop_app_length' fid _ 4), (take_app_length' nvb _ 4) by (symmetry; assumption).
    reflexivity.
  - rewrite (app_assoc fid), (app_assoc (fid ++ nvb)).
    rewrite (drop_app_length' _ _ 34) by (rewrite !length_app; lia).
    apply take_app_length'. symmetry. assumption.
  - rewrite (app_assoc fid), (app_assoc (fid ++ nvb)), (app_assoc ((fid ++ nvb) ++ op)),
      (app_assoc (((fid ++ nvb) ++ op) ++ texb)).
    apply drop_app_length'. rewrite !length_app. lia.
  - rewrite !length_app. lia.
Qed.

(** X6: the face id, the 26 bytes of colour, plane, unknown word and flags,
    and the two words after the texture name are read past and not kept:
    two face records that differ in these bytes only are read alike. *)
Theorem face_opaque_fields_ignored fid fid' nvb op op' texb tr tr' rest :
  length fid = 4%nat -> length fid' = 4%nat -> length nvb = 4%nat ->
  length op = 26%nat -> length op' = 26%nat -> length texb = 13%nat ->
  length tr = 8%nat -> length tr' = 8%nat ->
  read_face (fid ++ nvb ++ op ++ texb ++ tr ++ rest)
  = read_face (fid' ++ nvb ++ op' ++ texb ++ tr' ++ rest).
Proof.
  intros H1 H1' H2 H3 H3' H4 H5 H5'. rewrite !read_face_eq. cbv zeta.
  destruct (face_fields fid nvb op texb tr rest H1 H2 H3 H4 H5) as (-> & -> & -> & ->).
  destruct (face_fields fid' nvb op' texb tr' rest H1' H2 H3' H4 H5') as (-> & -> & -> & ->).
  reflexivity.
Qed.

Lemma face_opaque_fields_ignored_witness :
  read_face (u32le 7 ++ u32le 0 ++ zeros 26 ++ zeros 13 ++ zeros 8 ++ [])
  = read_face (u32le 9 ++ u32le 0 ++ repeat xff 26 ++ zeros 13 ++ repeat xff 8 ++ []).
Proof.
  apply face_opaque_fields_ignored; reflexivity.
Defined.

(** ** What every decoded model satisfies *)

Lemma replicateM_Forall {A} (P : A -> Prop) (m : reader A) :
  (forall s a r, m s = Ok (a, r) -> P a) ->
  forall n s l r, replicateM n m s = Ok (l, r) -> Forall P l.
Proof.
  intros H. induction n as [|n IH]; intros s l r; cbn [replicateM].
  - intros [= <- _]. constructor.
  - rewrite bind_eq. destruct (m s) as [[a s']|] eqn:E; [|discriminate].
    rewrite bind_eq. destruct (replicateM n m s') as [[l' s'']|] eqn:E'; [|discriminate].
    intros [= <- _]. constructor; [eapply H, E | eapply IH, E'].
Qed.

Lemma parsed_faces path content g :
  parse_geo_classic path content = Ok g ->
  exists n s r, replicateM n read_face s = Ok (faces g, r).
Proof.
  rewrite parse_geo_classic_eq. cbv zeta.
  destruct (length content <? 64)%nat; [discriminate|].
  destruct (negb _); [discriminate|].
  rewrite parse_tail_eq. cbv zeta.
  destruct (_ <=? length (drop 36 content))%nat; [|discriminate].
  destruct (replicateM _ read_face _) as [[fs r]|] eqn:E; [|discriminate].
  intros [= <-]. cbn [faces]. eauto.
Qed.

(** X7: every face of a decoded model has a texture name that is not empty
    and has 13 characters at most. *)
Theorem decoded_texture_names path content g :
  parse_geo_classic path content = Ok g ->
  Forall (fun f => tex f <> EmptyString /\ (String.length (tex f) <= 13)%nat) (faces g).
Proof.
  intros H. destruct (parsed_faces _ _ _ H) as (n & s & r & E).
  refine (replicateM_Forall _ read_face _ n s _ r E).
  clear. intros s f r. rewrite read_face_eq. cbv zeta.
  destruct (8 <=? length s)%nat; [|discriminate].
  destruct (_ <=? length (drop 55 s))%nat; [|discriminate].
  intros [= <- _]. cbn [tex].
  pose proof (length_cstr (take 13 (drop 34 s))) as L. rewrite length_take in L.
  destruct (cstr (take 13 (drop 34 s))) eqn:E; cbn [str_or].
  - split; [discriminate | cbn; lia].
  - split; [discriminate | lia].
Qed.

Lemma decoded_texture_names_witness :
  Forall (fun f => tex f <> EmptyString /\ (String.length (tex f) <= 13)%nat)
         [{| tex := "i76_default"; refs := [] |}].
Proof.
  assert (H : parse_geo_classic "a.geo" cornerless_file
              = Ok {| name := "a.geo"; verts := [(0, 0, 0)%float];
                      faces := [{| tex := "i76_default"; refs := [] |}] |})
    by (vm_compute; reflexivity).
  apply (decoded_texture_names _ _ _ H).
Defined.

Lemma le_value_bound b : (le_value b < 256 ^ N.of_nat (length b))%N.
Proof.
  induction b as [|x b IH]; cbn [le_value fold_right length].
  - cbn. lia.
  - fold (le_value b). rewrite Nat2N.inj_succ, N.pow_succ_r'.
    pose proof (Byte.to_N_bounded x). lia.
Qed.

Lemma le_value_u32 b : (le_value (take 4 b) < 4294967296)%N.
Proof.
  eapply N.lt_le_trans; [apply le_value_bound|].
  change 4294967296%N with (256 ^ 4)%N. apply N.pow_le_mono_r; [lia|].
  rewrite length_take. lia.
Qed.

Lemma Forall_decode_n {A} (P : A -> Prop) n w (d : list byte -> A) b :
  (forall x, P (d x)) -> Forall P (decode_n n w d b).
Proof.
  intros H. revert b. induction n as [|n IH]; intros b; cbn [decode_n]; constructor; auto.
Qed.

(** X8: in a decoded model every corner's vertex index and normal index is
    an unsigned 32-bit value; the decoder does not compare them with the
    number of vertices. *)
Theorem decoded_indices_are_u32 path content g :
  parse_geo_classic path content = Ok g ->
  Forall (fun f => Forall (fun r : ref => (fst (fst r) < 4294967296
                                           /\ snd (fst r) < 4294967296)%N) (refs f))
         (faces g).
Proof.
  intros H. destruct (parsed_faces _ _ _ H) as (n & s & r & E).
  refine (replicateM_Forall _ read_face _ n s _ r E).
  clear. intros s f r. rewrite read_face_eq. cbv zeta.
  destruct (8 <=? length s)%nat; [|discriminate].
  destruct (_ <=? length (drop 55 s))%nat; [|discriminate].
  intros [= <- _]. cbn [refs]. apply Forall_decode_n.
  intros x. unfold decode_ref. cbn [fst snd]. split; apply le_value_u32.
Qed.

Lemma decoded_indices_are_u32_witness :
  Forall (fun f => Forall (fun r : ref => (fst (fst r) < 4294967296
                                           /\ snd (fst r) < 4294967296)%N) (refs f))
         [{| tex := "chrome01";
             refs := [(0, 0, uv0); (1, 0, uv0); (2, 0, uv0); (4, 0, uv0)] |}].
Proof.
  assert (H : parse_geo_classic "q.geo" quad_out_of_range_file
              = Ok {| name := "q.geo";
                      verts := [(0, 0, 0); (0, 0, 0); (0, 0, 0); (0, 0, 0)]%float;
                      faces := [{| tex := "chrome01";
                                   refs := [(0, 0, uv0); (1, 0, uv0);
                                            (2, 0, uv0); (4, 0, uv0)] |}] |})
    by (vm_compute; reflexivity).
  apply (decoded_indices_are_u32 _ _ _ H).
Defined.

(** ** The size of the declared data, and the bytes after it *)

Lemma read_face_complete s f r :
  read_face s = Ok (f, r) ->
  (length s = (55 + 16 * length (refs f) + length r)%nat
   /\ forall t, read_face (s ++ t) = Ok (f, r ++ t))
  \/ (refs f = [] /\ r = [] /\ (length s < 55)%nat).
Proof.
  rewrite read_face_eq. cbv zeta.
  destruct (Nat.leb_spec 8 (length s)) as [L8|]; [|discriminate].
  set (nv := N.to_nat _).
  rewrite length_drop.
  destruct (Nat.leb_spec (nv * 16) (length s - 55)) as [Lc|]; [|discriminate].
  intros [= <- <-]. cbn [refs]. rewrite length_decode_n.
  destruct (Nat.le_gt_cases 55 (length s)) as [L|L].
  - left. split; [rewrite !length_drop; lia|].
    intros t. rewrite read_face_eq, length_app. cbv zeta.
    destruct (Nat.leb_spec 8 (length s + length t)); [|lia].
    rewrite (drop_app_le s t 4), (take_app_le (drop 4 s) t 4),
      (drop_app_le s t 34), (take_app_le (drop 34 s) t 13),
      (drop_app_le s t 55) by (rewrite ?length_drop; lia).
    fold nv. rewrite length_app, length_drop.
    destruct (Nat.leb_spec (nv * 16) (length s - 55 + length t)); [|lia].
    rewrite take_app_le, drop_app_le by (rewrite length_drop; lia). reflexivity.
  - right. assert (nv = 0%nat) as -> by lia.
    split; [reflexivity|]. split; [|assumption].
    change (0 * 16)%nat with 0%nat. rewrite drop_0. apply drop_ge. lia.
Qed.

Lemma sum_list_cons x l : sum_list (x :: l) = (x + sum_list l)%nat.
Proof. reflexivity. Qed.

Lemma read_faces_complete n : forall s fs r,
  replicateM n read_face s = Ok (fs, r) ->
  ends_with_corner fs \/ r <> [] \/ fs = [] ->
  length s = (sum_list ((fun f => 55 + 16 * length (refs f))%nat <$> fs) + length r)%nat
  /\ forall t, replicateM n read_face (s ++ t) = Ok (fs, r ++ t).
Proof.
  induction n as [|n IH]; intros s fs r; cbn [replicateM].
  - intros [= <- <-] _. split; reflexivity.
  - rewrite bind_eq. destruct (read_face s) as [[f r1]|] eqn:E; [|discriminate].
    rewrite bind_eq. destruct (replicateM n read_face r1) as [[l r2]|] eqn:E'; [|discriminate].
    intros [= <- <-] Hc.
    destruct (read_face_complete _ _ _ E) as [[Hs He] | (Hf & -> & _)].
    + destruct (IH _ _ _ E') as [Hs' He'].
      { destruct Hc as [(f0 & Hl & Hf0) | [Hr | Hn]]; [|tauto|discriminate].
        destruct l as [|f1 l]; [tauto|]. left. exists f0. split; [exact Hl | assumption]. }
      split.
      * rewrite fmap_cons, sum_list_cons. lia.
      * intros t. rewrite bind_eq, He, bind_eq, He'. reflexivity.
    + destruct n as [|n]; [|cbn [replicateM] in E'; rewrite bind_eq, read_face_nil in E';
                              discriminate].
      cbn in E'. injection E' as <- <-.
      destruct Hc as [(f0 & Hl & Hf0) | [Hr | Hn]]; [|tauto|discriminate].
      cbn in Hl. injection Hl as <-. contradiction.
Qed.

Lemma parse_body_needs_header path s :
  (length s < 36)%nat -> parse_body path s = Raise struct_error.
Proof.
  intros L. unfold parse_body.
  rewrite bind_eq. change (rCSTR 4 s) with (Ok (cstr (take 4 s), drop 4 s)).
  cbv beta iota. rewrite bind_eq, fixed_rU32, length_drop.
  destruct (Nat.leb_spec 4 (length s - 4)); [|reflexivity].
  rewrite bind_eq.
  change (rCSTR 16 (drop 4 (drop 4 s)))
    with (Ok (cstr (take 16 (drop 4 (drop 4 s))), drop 16 (drop 4 (drop 4 s)))).
  cbv beta iota. rewrite bind_eq, fixed_rU32, !length_drop.
  destruct (Nat.leb_spec 4 (length s - 4 - 4 - 16)); [|reflexivity].
  rewrite bind_eq, fixed_rU32, !length_drop.
  destruct (Nat.leb_spec 4 (length s - 4 - 4 - 16 - 4)); [|reflexivity].
  rewrite bind_eq, fixed_rU32, !length_drop.
  destruct (Nat.leb_spec 4 (length s - 4 - 4 - 16 - 4 - 4)); [lia|reflexivity].
Qed.

Lemma parse_body_complete path s g r :
  parse_body path s = Ok (g, r) ->
  ends_with_corner (faces g) \/ r <> [] ->
  length s = (expected_size g + length r)%nat
  /\ forall t, parse_body path (s ++ t) = Ok (g, r ++ t).
Proof.
  intros E Hc.
  destruct (Nat.le_gt_cases 36 (length s)) as [L|L];
    [|rewrite parse_body_needs_header in E by assumption; discriminate].
  rewrite parse_body_eq in E by assumption. cbv zeta in E.
  destruct (negb _) eqn:C; [discriminate|].
  rewrite parse_tail_eq in E. cbv zeta in E. rewrite length_drop in E.
  set (v := N.to_nat _) in E.
  destruct (Nat.leb_spec (v * 12 + v * 12) (length s - 36)) as [Lv|]; [|discriminate].
  destruct (replicateM _ read_face _) as [[fs r']|] eqn:EF; [|discriminate].
  injection E as <- <-.
  destruct (read_faces_complete _ _ _ _ EF) as [Hs He]; [cbn [faces] in Hc; tauto|].
  rewrite !length_drop in Hs. split.
  - unfold expected_size. cbn [verts faces]. rewrite length_decode_n. lia.
  - intros t. rewrite parse_body_eq by (rewrite length_app; lia). cbv zeta.
    rewrite (drop_app_le s t 24), (take_app_le (drop 24 s) t 4),
      (drop_app_le s t 28), (take_app_le (drop 28 s) t 4),
      (drop_app_le s t 8), (take_app_le (drop 8 s) t 16),
      (drop_app_le s t 36) by (rewrite ?length_drop; lia).
    rewrite C, parse_tail_eq. cbv zeta. fold v. rewrite length_app, length_drop.
    destruct (Nat.leb_spec (v * 12 + v * 12) (length s - 36 + length t)); [|lia].
    rewrite take_app_le, drop_app_le by (rewrite length_drop; lia).
    rewrite He. reflexivity.
Qed.

(** X9: when the last face has a corner, or when bytes are left after the
    last face, the decoder has read exactly the declared size: 36 bytes of
    header, 24 bytes for each vertex with its normal, and for each face 55
    bytes and 16 bytes for each corner. *)
Theorem consumed_size_is_declared_size path s g r :
  parse_body path s = Ok (g, r) ->
  ends_with_corner (faces g) \/ r <> [] ->
  length s = (expected_size g + length r)%nat.
Proof. intros E Hc. apply (parse_body_complete path s g r E Hc). Qed.

Lemma consumed_size_is_declared_size_witness :
  length triangle_file = (expected_size triangle_model + length (@nil byte))%nat.
Proof.
  apply (consumed_size_is_declared_size "a.geo" triangle_file triangle_model []).
  - vm_compute. reflexivity.
  - left. eexists. split; [reflexivity | discriminate].
Defined.

(** X10: bytes after the declared data are not looked at: under the same
    condition, the file followed by any bytes decodes to the same model. *)
Theorem trailing_bytes_are_ignored path s g r t :
  parse_geo_classic path s = Ok g ->
  parse_body path s = Ok (g, r) ->
  ends_with_corner (faces g) \/ r <> [] ->
  parse_geo_classic path (s ++ t) = Ok g.
Proof.
  intros Hp E Hc. unfold parse_geo_classic in *. rewrite length_app.
  destruct (Nat.ltb_spec (length s) 64); [discriminate|].
  destruct (Nat.ltb_spec (length s + length t) 64); [lia|].
  rewrite (proj2 (parse_body_complete path s g r E Hc) t). reflexivity.
Qed.

Lemma trailing_bytes_are_ignored_witness :
  parse_geo_classic "a.geo" (triangle_file ++ ascii_bytes "trailer") = Ok triangle_model.
Proof.
  apply (trailing_bytes_are_ignored "a.geo" triangle_file triangle_model []).
  - vm_compute. reflexivity.
  - vm_compute. reflexivity.
  - left. eexists. split; [reflexivity | discriminate].
Defined.

(** * Further properties of the builder *)

(** ** Where the triangles of a mesh come from *)

Lemma fan_from_origin mid c0 : forall rest prev t,
  t ∈ fan_from mid c0 prev rest ->
  exists b c, b ∈ prev :: rest /\ c ∈ rest /\ t = corner_tri mid c0 b c.
Proof.
  induction rest as [|c rest IH]; intros prev t; cbn [fan_from].
  - intros H. inversion H.
  - rewrite elem_of_cons. intros [-> | H].
    + exists prev, c. repeat split; left.
    + destruct (IH _ _ H) as (b & c' & Hb & Hc & ->).
      exists b, c'. repeat split; right; assumption.
Qed.

Lemma fan_triangles_origin mid rs t :
  t ∈ fan_triangles mid rs ->
  (3 <= length rs)%nat
  /\ exists a b c, head rs = Some a /\ b ∈ rs /\ c ∈ rs /\ t = corner_tri mid a b c.
Proof.
  destruct rs as [|c0 [|c1 rest]]; cbn [fan_triangles]; try (intros H; inversion H; fail).
  intros H. destruct (fan_from_origin _ _ _ _ _ H) as (b & c & Hb & Hc & ->).
  split.
  - destruct rest; [inversion Hc | cbn; lia].
  - exists c0, b, c. repeat split; [right; assumption | do 2 right; assumption].
Qed.

Lemma accept_elem rejects t : forall ts bm,
  t ∈ fold_left (accept rejects) ts bm -> t ∈ bm \/ t ∈ ts.
Proof.
  induction ts as [|u ts IH]; intros bm; cbn [fold_left]; [tauto|].
  intros H. apply IH in H as [H | H]; [|right; right; assumption].
  unfold accept in H. destruct (rejects bm (tri_verts u)); [tauto|].
  apply elem_of_app in H as [H | H]; [tauto|].
  apply list_elem_of_singleton in H as ->. right. left.
Qed.

Lemma fans_elem rejects (mid : face -> nat) t : forall fs bm,
  t ∈ fold_left (fun bm f => fold_left (accept rejects) (fan_triangles (mid f) (refs f)) bm)
                fs bm ->
  t ∈ bm \/ exists f, f ∈ fs /\ t ∈ fan_triangles (mid f) (refs f).
Proof.
  induction fs as [|f fs IH]; intros bm; cbn [fold_left]; [tauto|].
  intros H. apply IH in H as [H | (f' & Hf' & H)].
  - apply accept_elem in H as [H | H]; [tauto|]. right. exists f. split; [left | assumption].
  - right. exists f'. split; [right; assumption | assumption].
Qed.

(** ** Scale *)

Lemma scale_vec_one p : scale_vec 1 p = p.
Proof. destruct p as [[x y] z]. unfold scale_vec. rewrite !float_mul_one_r. reflexivity. Qed.

(** The coordinates of a decoded model are binary32 numbers. *)
Lemma decoded_vertices path content g :
  parse_geo_classic path content = Ok g ->
  Forall (fun p : vec3 =>
            exists a b c, p = (float_of_bits32 a, float_of_bits32 b, float_of_bits32 c))
         (verts g).
Proof.
  rewrite parse_geo_classic_eq. cbv zeta.
  destruct (length content <? 64)%nat; [discriminate|].
  destruct (negb _); [discriminate|].
  rewrite parse_tail_eq. cbv zeta.
  destruct (_ <=? length (drop 36 content))%nat; [|discriminate].
  destruct (replicateM _ read_face _) as [[fs r]|]; [|discriminate].
  intros [= <-]. cbn [verts]. apply Forall_decode_n.
  intros x. unfold decode_vec3. eauto.
Qed.

(** C8, as the code has it: for a decoded model in which no coordinate is
    above half the largest binary32 number in magnitude, every vertex
    position of the mesh built with scale 2.0 is the position of the mesh
    built with scale 1.0 with x, y and z multiplied by two, the positions
    with scale 1.0 being the decoded vertices; the triangles, their UV pairs
    and material slots, the slots of the object and the cache the two builds
    leave are the same, and so is the error when the build raises. *)
Theorem scale_two_doubles_positions unique_name rejects path content g cache db :
  parse_geo_classic path content = Ok g ->
  Forall (fun p : vec3 =>
            let '(x, y, z) := p in
            half_range x && half_range y && half_range z = true) (verts g) ->
  snd (build_mesh unique_name rejects g 2 cache db)
  = snd (build_mesh unique_name rejects g 1 cache db)
  /\ match fst (build_mesh unique_name rejects g 1 cache db),
           fst (build_mesh unique_name rejects g 2 cache db) with
     | Ok o1, Ok o2 =>
         positions o1 = verts g
         /\ positions o2
            = (fun p : vec3 =>
                 let '(x, y, z) := p in
                 (PrimFloat.mul x 2, PrimFloat.mul y 2, PrimFloat.mul z 2))
              <$> positions o1
         /\ triangles o2 = triangles o1
         /\ ob_materials o2 = ob_materials o1
     | Raise e1, Raise e2 => e1 = e2
     | _, _ => False
     end.
Proof.
  intros Hg Hr. apply decoded_vertices in Hg.
  split; [rewrite !snd_build_mesh; reflexivity|].
  rewrite !fst_build_mesh. cbv zeta.
  destruct (forallb (face_ok (verts g)) (faces g)); [|reflexivity].
  cbn [positions triangles ob_materials].
  assert (E : (fun p => verts_new (scale_vec 1 p)) <$> verts g = verts g).
  { rewrite <- (list_fmap_id (verts g)) at 2. apply Forall_fmap_ext_1.
    eapply Forall_impl; [exact Hg|].
    intros p (a & b & c & ->). rewrite scale_vec_one. unfold verts_new.
    rewrite !c_float_float_of_bits32. reflexivity. }
  rewrite E. split; [reflexivity|]. split; [|split; reflexivity].
  apply Forall_fmap_ext_1, Forall_forall. intros p Hin.
  rewrite Forall_forall in Hg, Hr.
  pose proof (Hr p Hin) as Hp. destruct (Hg p Hin) as (a & b & c & ->).
  cbv beta iota in Hp.
  apply andb_prop in Hp as [Hp Hc]. apply andb_prop in Hp as [Ha Hb].
  unfold verts_new, scale_vec.
  rewrite !c_float_doubled by assumption. reflexivity.
Qed.

Lemma scale_two_doubles_positions_witness :
  snd (build_mesh keep_name bmesh_rejects scaled_triangle_model 2 ∅ [])
  = snd (build_mesh keep_name bmesh_rejects scaled_triangle_model 1 ∅ [])
  /\ match fst (build_mesh keep_name bmesh_rejects scaled_triangle_model 1 ∅ []),
           fst (build_mesh keep_name bmesh_rejects scaled_triangle_model 2 ∅ []) with
     | Ok o1, Ok o2 =>
         positions o1 = verts scaled_triangle_model
         /\ positions o2
            = (fun p : vec3 =>
                 let '(x, y, z) := p in
                 (PrimFloat.mul x 2, PrimFloat.mul y 2, PrimFloat.mul z 2))
              <$> positions o1
         /\ triangles o2 = triangles o1
         /\ ob_materials o2 = ob_materials o1
     | Raise e1, Raise e2 => e1 = e2
     | _, _ => False
     end.
Proof.
  apply (scale_two_doubles_positions keep_name bmesh_rejects "a.geo" scaled_triangle_file).
  - vm_compute. reflexivity.
  - vm_compute. repeat constructor.
Defined.

(** C8, as the specification words it, does not hold: the first vertex of
    [far_triangle_file] has the largest binary32 number as its x; the mesh
    built with scale 1.0 holds that number, and the mesh built with scale
    2.0 holds infinity, which is not its double. *)
Lemma doubling_can_overflow :
  exists g,
    parse_geo_classic "a.geo" far_triangle_file = Ok g
    /\ res_map positions (fst (build_mesh keep_name bmesh_rejects g 1 ∅ []))
       = Ok [(0x1.fffffep+127, 0, 0); (0, 1, 0); (0, 0, 1)]%float
    /\ res_map positions (fst (build_mesh keep_name bmesh_rejects g 2 ∅ []))
       = Ok [(PrimFloat.infinity, 0, 0); (0, 2, 0); (0, 0, 2)]%float
    /\ res_map positions (fst (build_mesh keep_name bmesh_rejects g 2 ∅ []))
       <> res_map (fmap (fun p : vec3 =>
                           let '(x, y, z) := p in
                           (PrimFloat.mul x 2, PrimFloat.mul y 2, PrimFloat.mul z 2)))
                  (res_map positions (fst (build_mesh keep_name bmesh_rejects g 1 ∅ []))).
Proof.
  exists far_triangle_model.
  split; [vm_compute; reflexivity|].
  split; [vm_compute; reflexivity|].
  split; [vm_compute; reflexivity|].
  intros H.
  apply (f_equal (fun r => match r with
                           | Ok ((x, _, _) :: _) => PrimFloat.eqb x PrimFloat.infinity
                           | _ => false
                           end)) in H.
  vm_compute in H. discriminate.
Qed.

Section Mesh.

Variable unique_name : list string -> string -> string.
Variable rejects : list tri -> nat * nat * nat -> bool.

Lemma built_triangle_origin g scale cache db o t :
  fst (build_mesh unique_name rejects g scale cache db) = Ok o ->
  t ∈ triangles o ->
  forallb (face_ok (verts g)) (faces g) = true
  /\ positions o = (fun p => verts_new (scale_vec scale p)) <$> verts g
  /\ exists f a b c,
       f ∈ faces g /\ (3 <= length (refs f))%nat
       /\ head (refs f) = Some a /\ b ∈ refs f /\ c ∈ refs f
       /\ t = corner_tri (default 0%nat (mat_index_of (ob_materials o) !! tex f)) a b c.
Proof.
  rewrite fst_build_mesh. cbv zeta.
  destruct (forallb (face_ok (verts g)) (faces g)) eqn:E; [|discriminate].
  intros [= <-]. cbn [triangles positions ob_materials]. intros H.
  split; [reflexivity|]. split; [reflexivity|].
  apply (fans_elem rejects
           (fun f => default 0%nat (mat_index_of _ !! tex f))) in H
    as [H | (f & Hf & H)]; [inversion H|].
  apply fan_triangles_origin in H as (Hn & a & b & c & Ha & Hb & Hc & ->).
  exists f, a, b, c. tauto.
Qed.

(** X11: every triangle of a built mesh is made of three corners of one
    face of three corners or more, the first of them being the first corner
    of the face; its vertices are their vertex indices, its UV pairs are
    theirs, in that order, and it is smooth. *)
Theorem triangles_come_from_corners g scale cache db o t :
  fst (build_mesh unique_name rejects g scale cache db) = Ok o ->
  t ∈ triangles o ->
  exists f a b c,
    f ∈ faces g /\ (3 <= length (refs f))%nat
    /\ head (refs f) = Some a /\ b ∈ refs f /\ c ∈ refs f
    /\ tri_verts t = (N.to_nat (fst (fst a)), N.to_nat (fst (fst b)), N.to_nat (fst (fst c)))
    /\ tri_uvs t = (snd a, snd b, snd c)
    /\ smooth t = true.
Proof.
  intros Ho Ht.
  destruct (built_triangle_origin _ _ _ _ _ _ Ho Ht)
    as (_ & _ & f & a & b & c & Hf & Hn & Ha & Hb & Hc & ->).
  exists f, a, b, c. cbn. tauto.
Qed.

(** X12: a built mesh has one position for each vertex of the model, in the
    same order, and every vertex of every triangle is one of them. *)
Theorem triangle_indices_in_range g scale cache db o :
  fst (build_mesh unique_name rejects g scale cache db) = Ok o ->
  length (positions o) = length (verts g)
  /\ Forall (fun t => let '(a, b, c) := tri_verts t in
                      (a < length (positions o) /\ b < length (positions o)
                       /\ c < length (positions o))%nat)
            (triangles o).
Proof.
  intros Ho.
  assert (Hp : length (positions o) = length (verts g)).
  { pose proof (fst_build_mesh unique_name rejects g scale cache db) as H.
    rewrite Ho in H. cbv zeta in H.
    destruct (forallb _ _); [|discriminate]. injection H as ->.
    cbn [positions]. apply length_fmap. }
  split; [assumption|]. apply Forall_forall. intros t Ht.
  destruct (built_triangle_origin _ _ _ _ _ _ Ho Ht)
    as (Hok & _ & f & a & b & c & Hf & Hn & Ha & Hb & Hc & ->).
  rewrite forallb_forall in Hok. apply list_elem_of_In, Hok in Hf.
  unfold face_ok in Hf. apply orb_true_iff in Hf as [Hf | Hf];
    [apply Nat.ltb_lt in Hf; lia|].
  rewrite forallb_forall in Hf.
  assert (Hr : forall r, r ∈ refs f -> (N.to_nat (fst (fst r)) < length (positions o))%nat).
  { intros r Hr. apply list_elem_of_In, Hf in Hr. unfold in_range in Hr.
    apply N.ltb_lt in Hr. lia. }
  cbn [tri_verts corner_tri]. repeat split; apply Hr; try assumption.
  destruct (refs f); [discriminate|]. injection Ha as <-. left.
Qed.

End Mesh.

Lemma triangles_come_from_corners_witness :
  exists f a b c,
    f ∈ faces folded_model /\ (3 <= length (refs f))%nat
    /\ head (refs f) = Some a /\ b ∈ refs f /\ c ∈ refs f
    /\ (0, 1, 2)%nat = (N.to_nat (fst (fst a)), N.to_nat (fst (fst b)), N.to_nat (fst (fst c)))
    /\ (uv0, uv0, uv0) = (snd a, snd b, snd c)
    /\ true = true.
Proof.
  refine (triangles_come_from_corners keep_name bmesh_rejects folded_model 1 ∅ []
            {| positions := quad_verts;
               ob_materials := [{| mat_id := 0; mat_name := "a"; use_nodes := true |}];
               triangles := [{| tri_verts := (0, 1, 2)%nat; material_index := 0;
                                smooth := true; tri_uvs := (uv0, uv0, uv0) |}] |}
            {| tri_verts := (0, 1, 2)%nat; material_index := 0;
               smooth := true; tri_uvs := (uv0, uv0, uv0) |} _ _).
  - vm_compute. reflexivity.
  - left.
Defined.

Lemma triangle_indices_in_range_witness :
  length quad_verts = length (verts folded_model).
Proof.
  refine (proj1 (triangle_indices_in_range keep_name bmesh_rejects folded_model 1 ∅ []
            {| positions := quad_verts;
               ob_materials := [{| mat_id := 0; mat_name := "a"; use_nodes := true |}];
               triangles := [{| tri_verts := (0, 1, 2)%nat; material_index := 0;
                                smooth := true; tri_uvs := (uv0, uv0, uv0) |}] |} _)).
  vm_compute. reflexivity.
Defined.

(** ** Material slots *)

Lemma mat_index_of_snoc slots m :
  mat_index_of (slots ++ [m]) = <[mat_name m := length slots]> (mat_index_of slots).
Proof.
  unfold mat_index_of. rewrite length_app. cbn [length].
  rewrite Nat.add_1_r, seq_S. cbn [Nat.add].
  rewrite (zip_with_app pair (seq 0 (length slots)) [length slots] slots [m])
    by apply length_seq.
  rewrite fold_left_app. reflexivity.
Qed.

Lemma mat_index_of_bound slots : forall k i,
  mat_index_of slots !! k = Some i -> (i < length slots)%nat.
Proof.
  induction slots as [|m slots IH] using rev_ind; intros k i.
  - cbn. rewrite lookup_empty. discriminate.
  - rewrite mat_index_of_snoc, length_app. cbn [length].
    destruct (decide (mat_name m = k)) as [->|Hne].
    + rewrite lookup_insert_eq. intros [= <-]. lia.
    + rewrite lookup_insert_ne by assumption. intros H. apply IH in H. lia.
Qed.


Section Slots.

Variable unique_name : list string -> string -> string.

Lemma slot_material_nonempty st f : snd (slot_material unique_name st f) <> [].
Proof.
  destruct st as [[cache db] slots]. unfold slot_material.
  destruct (cache !! tex f) as [m|]; cbn [materials_new].
  - destruct (bool_decide _) eqn:E; cbn [snd].
    + apply bool_decide_eq_true in E. intros ->. inversion E.
    + destruct slots; discriminate.
  - destruct (bool_decide _) eqn:E; cbn [snd].
    + apply bool_decide_eq_true in E. intros ->. inversion E.
    + destruct slots; discriminate.
Qed.

Lemma slot_materials_nonempty fs st :
  fs <> [] -> snd (fold_left (slot_material unique_name) fs st) <> [].
Proof.
  destruct fs as [|f fs _] using rev_ind; [contradiction|]. intros _.
  rewrite fold_left_app. apply slot_material_nonempty.
Qed.

Lemma slot_material_NoDup st f :
  NoDup (mat_name <$> snd st) ->
  NoDup (mat_name <$> snd (slot_material unique_name st f)).
Proof.
  destruct st as [[cache db] slots]. unfold slot_material. cbn [snd].
  assert (H : forall m, NoDup (mat_name <$> slots) ->
                        NoDup (mat_name <$> (if bool_decide (mat_name m ∈ mat_name <$> slots)
                                             then slots else slots ++ [m]))).
  { intros m Hnd. destruct (bool_decide _) eqn:E; [assumption|].
    apply bool_decide_eq_false in E. rewrite fmap_app. apply NoDup_app.
    split; [assumption|]. split; [|apply NoDup_singleton].
    intros x Hx Hx'. apply list_elem_of_singleton in Hx'. cbn in Hx'. congruence. }
  intros Hnd. destruct (cache !! tex f) as [m|]; cbn [materials_new].
  - specialize (H m Hnd). destruct (bool_decide _); exact H.
  - specialize (H {| mat_id := length db;
                     mat_name := unique_name (mat_name <$> db) (tex f);
                     use_nodes := true |} Hnd).
    cbn [mat_name] in H |- *. destruct (bool_decide _); exact H.
Qed.

Lemma slot_materials_NoDup fs : forall st,
  NoDup (mat_name <$> snd st) ->
  NoDup (mat_name <$> snd (fold_left (slot_material unique_name) fs st)).
Proof.
  induction fs as [|f fs IH]; intros st H; cbn [fold_left]; [assumption|].
  apply IH, slot_material_NoDup, H.
Qed.

End Slots.

Lemma length_fan_from mid c0 : forall rest prev,
  length (fan_from mid c0 prev rest) = length rest.
Proof. induction rest as [|c rest IH]; intros prev; cbn; [reflexivity | now rewrite IH]. Qed.

Lemma length_fan_triangles mid rs : length (fan_triangles mid rs) = (length rs - 2)%nat.
Proof.
  destruct rs as [|c0 [|c1 rest]]; cbn [fan_triangles length]; try reflexivity.
  rewrite length_fan_from. lia.
Qed.

Lemma length_accept rejects : forall ts bm,
  (length (fold_left (accept rejects) ts bm) <= length bm + length ts)%nat.
Proof.
  induction ts as [|t ts IH]; intros bm; cbn [fold_left length]; [lia|].
  etrans; [apply IH|]. unfold accept. destruct (rejects bm _); [lia|].
  rewrite length_app. cbn. lia.
Qed.

Lemma length_fans rejects (mid : face -> nat) : forall fs bm,
  (length (fold_left (fun bm f => fold_left (accept rejects)
                                     (fan_triangles (mid f) (refs f)) bm) fs bm)
   <= length bm + sum_list ((fun f => length (refs f) - 2)%nat <$> fs))%nat.
Proof.
  induction fs as [|f fs IH]; intros bm; cbn [fold_left]; [cbn; lia|].
  etrans; [apply IH|]. rewrite fmap_cons, sum_list_cons.
  pose proof (length_accept rejects (fan_triangles (mid f) (refs f)) bm) as H.
  rewrite length_fan_triangles in H. lia.
Qed.

Section MeshSlots.

Variable unique_name : list string -> string -> string.
Variable rejects : list tri -> nat * nat * nat -> bool.

Lemma built_slots g scale cache db o :
  fst (build_mesh unique_name rejects g scale cache db) = Ok o ->
  ob_materials o = snd (fold_left (slot_material unique_name) (faces g) (cache, db, [])).
Proof.
  rewrite fst_build_mesh. cbv zeta. destruct (forallb _ _); [|discriminate].
  intros [= <-]. reflexivity.
Qed.

(** X13: the material index of every triangle of a built mesh is an index
    into the material slots of the object. *)
Theorem triangle_material_index_valid g scale cache db o :
  fst (build_mesh unique_name rejects g scale cache db) = Ok o ->
  Forall (fun t => (material_index t < length (ob_materials o))%nat) (triangles o).
Proof.
  intros Ho. apply Forall_forall. intros t Ht.
  destruct (built_triangle_origin _ _ _ _ _ _ _ _ Ho Ht)
    as (_ & _ & f & a & b & c & Hf & _ & _ & _ & _ & ->).
  cbn [material_index corner_tri].
  destruct (mat_index_of (ob_materials o) !! tex f) as [i|] eqn:E; cbn [default].
  - eapply mat_index_of_bound, E.
  - assert (Hne : ob_materials o <> []).
    { rewrite (built_slots _ _ _ _ _ Ho). apply slot_materials_nonempty.
      intros Hnil. rewrite Hnil in Hf. inversion Hf. }
    destruct (ob_materials o); [contradiction | cbn; lia].
Qed.

(** X14: a built mesh has at most n - 2 triangles for each face of n
    corners, so no more than the fans hold. *)
Theorem triangle_count_bound g scale cache db o :
  fst (build_mesh unique_name rejects g scale cache db) = Ok o ->
  (length (triangles o) <= sum_list ((fun f => length (refs f) - 2)%nat <$> faces g))%nat.
Proof.
  rewrite fst_build_mesh. cbv zeta. destruct (forallb _ _); [|discriminate].
  intros [= <-]. cbn [triangles].
  etrans; [apply (length_fans rejects (fun f => default 0%nat (mat_index_of _ !! tex f)))|].
  cbn. lia.
Qed.

(** X15: no two material slots of a built object hold materials of the same
    name. *)
Theorem slot_names_are_distinct g scale cache db o :
  fst (build_mesh unique_name rejects g scale cache db) = Ok o ->
  NoDup (mat_name <$> ob_materials o).
Proof.
  intros Ho. rewrite (built_slots _ _ _ _ _ Ho).
  apply slot_materials_NoDup. cbn. constructor.
Qed.

(** X16: the build succeeds exactly when every face of three corners or
    more has all its vertex indices below the number of vertices, and the
    only exception it raises is [IndexError]. *)
Theorem build_succeeds_iff_in_range g scale cache db :
  ((forall f r, f ∈ faces g -> (3 <= length (refs f))%nat -> r ∈ refs f ->
                (fst (fst r) < N.of_nat (length (verts g)))%N)
   <-> exists o, fst (build_mesh unique_name rejects g scale cache db) = Ok o)
  /\ (forall e, fst (build_mesh unique_name rejects g scale cache db) = Raise e ->
                e = IndexError).
Proof.
  rewrite fst_build_mesh. cbv zeta.
  destruct (forallb (face_ok (verts g)) (faces g)) eqn:E.
  - split; [|discriminate]. split; [eauto|]. intros _ f r Hf Hn Hr.
    rewrite forallb_forall in E. apply list_elem_of_In, E in Hf.
    unfold face_ok in Hf. apply orb_true_iff in Hf as [Hf | Hf];
      [apply Nat.ltb_lt in Hf; lia|].
    rewrite forallb_forall in Hf. apply list_elem_of_In, Hf in Hr.
    apply N.ltb_lt. exact Hr.
  - split; [|intros e [= <-]; reflexivity]. split; [|intros [o Ho]; discriminate].
    intros H. exfalso. apply not_true_iff_false in E. apply E.
    apply forallb_forall. intros f Hf. apply list_elem_of_In in Hf.
    unfold face_ok. apply orb_true_iff.
    destruct (Nat.ltb_spec (length (refs f)) 3) as [|Hn]; [left; reflexivity | right].
    apply forallb_forall. intros r Hr. apply list_elem_of_In in Hr.
    apply N.ltb_lt. eauto.
Qed.

End MeshSlots.

Lemma triangle_material_index_valid_witness :
  Forall (fun t => (material_index t < 1)%nat)
         [{| tri_verts := (0, 1, 2)%nat; material_index := 0;
             smooth := true; tri_uvs := (uv0, uv0, uv0) |}].
Proof.
  refine (triangle_material_index_valid keep_name bmesh_rejects folded_model 1 ∅ []
            {| positions := quad_verts;
               ob_materials := [{| mat_id := 0; mat_name := "a"; use_nodes := true |}];
               triangles := [{| tri_verts := (0, 1, 2)%nat; material_index := 0;
                                smooth := true; tri_uvs := (uv0, uv0, uv0) |}] |} _).
  vm_compute. reflexivity.
Defined.

Lemma triangle_count_bound_witness :
  (1 <= sum_list ((fun f => length (refs f) - 2)%nat <$> faces folded_model))%nat.
Proof.
  refine (triangle_count_bound keep_name bmesh_rejects folded_model 1 ∅ []
            {| positions := quad_verts;
               ob_materials := [{| mat_id := 0; mat_name := "a"; use_nodes := true |}];
               triangles := [{| tri_verts := (0, 1, 2)%nat; material_index := 0;
                                smooth := true; tri_uvs := (uv0, uv0, uv0) |}] |} _).
  vm_compute. reflexivity.
Defined.

Lemma slot_names_are_distinct_witness :
  NoDup (mat_name <$> [{| mat_id := 0; mat_name := "a"; use_nodes := true |}]).
Proof.
  refine (slot_names_are_distinct keep_name bmesh_rejects folded_model 1 ∅ []
            {| positions := quad_verts;
               ob_materials := [{| mat_id := 0; mat_name := "a"; use_nodes := true |}];
               triangles := [{| tri_verts := (0, 1, 2)%nat; material_index := 0;
                                smooth := true; tri_uvs := (uv0, uv0, uv0) |}] |} _).
  vm_compute. reflexivity.
Defined.

(** ** The cache and the host's materials *)

Section CacheUse.

Variable unique_name : list string -> string -> string.
Variable rejects : list tri -> nat * nat * nat -> bool.

Lemma slot_material_cached st f :
  is_Some (fst (fst st) !! tex f) -> fst (slot_material unique_name st f) = fst st.
Proof.
  destruct st as [[cache db] slots]. cbn [fst]. intros [m Hm].
  unfold slot_material. rewrite Hm. destruct (bool_decide _); reflexivity.
Qed.

Lemma slot_materials_cached fs : forall st,
  (forall f, f ∈ fs -> is_Some (fst (fst st) !! tex f)) ->
  fst (fold_left (slot_material unique_name) fs st) = fst st.
Proof.
  induction fs as [|f fs IH]; intros st H; cbn [fold_left]; [reflexivity|].
  assert (E : fst (slot_material unique_name st f) = fst st)
    by (apply slot_material_cached, H; left).
  rewrite IH, E; [reflexivity|]. intros f' Hf'. rewrite E. apply H. right. assumption.
Qed.

(** X17: building a model whose texture names are all in the cache creates
    no material and leaves the cache as it is. *)
Theorem cached_textures_create_nothing g scale cache db :
  (forall f, f ∈ faces g -> is_Some (cache !! tex f)) ->
  snd (build_mesh unique_name rejects g scale cache db) = (cache, db).
Proof.
  intros H. rewrite snd_build_mesh.
  apply (slot_materials_cached (faces g) (cache, db, [])). exact H.
Qed.

Lemma slot_material_count st f :
  (length (snd (fst (slot_material unique_name st f))) + size (fst (fst st))
   = length (snd (fst st)) + size (fst (fst (slot_material unique_name st f))))%nat.
Proof.
  destruct st as [[cache db] slots]. unfold slot_material. cbn [fst snd].
  destruct (cache !! tex f) as [m|] eqn:E; cbn [materials_new].
  - destruct (bool_decide _); cbn [fst snd]; lia.
  - destruct (bool_decide _); cbn [fst snd];
      rewrite length_app, map_size_insert_None by assumption; cbn; lia.
Qed.

Lemma slot_materials_count fs : forall st,
  (length (snd (fst (fold_left (slot_material unique_name) fs st))) + size (fst (fst st))
   = length (snd (fst st))
     + size (fst (fst (fold_left (slot_material unique_name) fs st))))%nat.
Proof.
  induction fs as [|f fs IH]; intros st; cbn [fold_left]; [lia|].
  pose proof (IH (slot_material unique_name st f)).
  pose proof (slot_material_count st f). lia.
Qed.

Lemma build_all_count scale gs : forall st,
  (length (snd (build_all unique_name rejects scale gs st)) + size (fst st)
   = length (snd st) + size (fst (build_all unique_name rejects scale gs st)))%nat.
Proof.
  unfold build_all.
  induction gs as [|g gs IH]; intros st; cbn [fold_left]; [lia|].
  pose proof (IH (snd (build_mesh unique_name rejects g scale (fst st) (snd st)))) as H1.
  rewrite snd_build_mesh in H1 |- *.
  pose proof (slot_materials_count (faces g) (fst st, snd st, [])) as H2.
  cbn [fst snd] in H2. lia.
Qed.

(** X18: a batch creates one material for each texture name in its cache:
    the host ends with as many new materials as the cache has entries. *)
Theorem batch_creates_one_material_per_name fs scale axis_up paths db :
  let b := execute unique_name rejects fs scale axis_up paths db in
  length (bpy_materials b) = (length db + size (mat_cache b))%nat.
Proof.
  cbv zeta.
  pose proof (execute_cache_is_build_all unique_name rejects fs scale axis_up paths db) as E.
  cbv zeta in E.
  pose proof (build_all_count scale (parsed_models fs paths) (∅, db)) as H.
  rewrite <- E in H. cbn [fst snd] in H. rewrite map_size_empty in H. lia.
Qed.

(** X19: the texture names in the cache at the end of a batch are those of
    the faces of the files that could be decoded, also of the files whose
    build raised. *)
Theorem batch_cache_keys fs scale axis_up paths db :
  dom (mat_cache (execute unique_name rejects fs scale axis_up paths db))
  = list_to_set (tex <$> concat (faces <$> parsed_models fs paths)).
Proof.
  pose proof (execute_cache_is_build_all unique_name rejects fs scale axis_up paths db) as E.
  cbv zeta in E.
  pose proof (build_all_dom unique_name rejects scale (parsed_models fs paths) (∅, db)) as H.
  rewrite <- E in H. cbn [fst] in H. rewrite H, dom_empty_L. set_solver.
Qed.

End CacheUse.

Lemma cached_textures_create_nothing_witness :
  snd (build_mesh keep_name bmesh_rejects folded_model 1
         {[ "a" := {| mat_id := 5; mat_name := "a"; use_nodes := true |} ]} [])
  = ({[ "a" := {| mat_id := 5; mat_name := "a"; use_nodes := true |} ]}, []).
Proof.
  apply cached_textures_create_nothing.
  intros f Hf. cbn [faces folded_model] in Hf.
  rewrite !elem_of_cons, elem_of_nil in Hf.
  destruct Hf as [-> | [-> | [-> | []]]]; cbn [tex]; rewrite lookup_singleton_eq; eauto.
Defined.

(** ** The material of a triangle *)

Section Assignment.

Variable unique_name : list string -> string -> string.
Variable rejects : list tri -> nat * nat * nat -> bool.
Hypothesis keeps_names : forall names t, unique_name names t = t.




End Assignment.


(** * Further properties of the batch *)

(** ** The selection *)

Lemma string_app_nil_r (a : string) : (a ++ EmptyString)%string = a.
Proof.
  induction a as [|x a IH]; [reflexivity|].
  change (String x (a ++ EmptyString)%string = String x a). now rewrite IH.
Qed.

Lemma string_app_assoc (a b c : string) : ((a ++ b) ++ c = a ++ (b ++ c))%string.
Proof.
  induction a as [|x a IH]; [reflexivity|].
  change (String x ((a ++ b) ++ c)%string = String x (a ++ (b ++ c))%string).
  now rewrite IH.
Qed.

Lemma basename_from_no_slash : forall p acc,
  has_slash p = false -> basename_from acc p = (acc ++ p)%string.
Proof.
  induction p as [|c p IH]; intros acc; cbn [has_slash basename_from].
  - intros _. symmetry. apply string_app_nil_r.
  - intros H. apply orb_false_iff in H as [Hc Hp]. rewrite Hc, IH by assumption.
    rewrite string_app_assoc. reflexivity.
Qed.

Lemma string_app_cons c (a b : string) : (String c a ++ b)%string = String c (a ++ b)%string.
Proof. reflexivity. Qed.

Lemma basename_from_after_slash : forall p acc rest,
  basename_from acc (p ++ String "/"%char rest) = basename_from EmptyString rest.
Proof.
  induction p as [|c p IH]; intros acc rest.
  - reflexivity.
  - rewrite string_app_cons. cbn [basename_from].
    destruct (Ascii.eqb c "/"%char); apply IH.
Qed.

Lemma ends_with_slash_split : forall p,
  ends_with_slash p = true -> exists q, p = (q ++ String "/"%char EmptyString)%string.
Proof.
  induction p as [|c p IH]; cbn [ends_with_slash]; [discriminate|].
  destruct p as [|c' p'].
  - intros H. apply Ascii.eqb_eq in H as ->. exists EmptyString. reflexivity.
  - intros H. destruct (IH H) as [q ->]. exists (String c q). reflexivity.
Qed.

(** X21: a selected file whose name has no slash is looked for under a path
    whose base name is that name, whatever the directory. *)
Theorem selected_file_keeps_its_name directory f :
  has_slash f = false -> basename (os_path_join directory f) = f.
Proof.
  intros H. unfold os_path_join, basename.
  assert (Hs : starts_with_slash f = false).
  { destruct f as [|c f]; [reflexivity|]. cbn in H |- *.
    apply orb_false_iff in H. tauto. }
  rewrite Hs. destruct directory as [|c d].
  - apply (basename_from_no_slash f EmptyString H).
  - destruct (ends_with_slash (String c d)) eqn:E.
    + apply ends_with_slash_split in E as [q ->].
      rewrite string_app_assoc, string_app_cons.
      change (EmptyString ++ f)%string with f.
      rewrite basename_from_after_slash. apply (basename_from_no_slash f EmptyString H).
    + rewrite basename_from_after_slash. apply (basename_from_no_slash f EmptyString H).
Qed.

Lemma selected_file_keeps_its_name_witness :
  basename (os_path_join "/models/cars" "piranha.geo") = "piranha.geo".
Proof. apply selected_file_keeps_its_name. reflexivity. Defined.

Section BatchObjects.

Variable unique_name : list string -> string -> string.
Variable rejects : list tri -> nat * nat * nat -> bool.
Variable fs : string -> option (list byte).
Variable scale : float.
Variable axis_up : up_axis.

(** X22: a batch over a selection reports on every selected file, and on
    the single path of the operator when nothing is selected: the imported
    files and the failed ones add up to the number of selected files, one
    at least. *)
Theorem selection_is_fully_reported files directory filepath db :
  let b := execute unique_name rejects fs scale axis_up
                   (selected_paths files directory filepath) db in
  (imported b + length (errors b) = Nat.max 1 (length files))%nat.
Proof.
  cbv zeta. unfold execute.
  destruct (batch_steps unique_name rejects fs scale axis_up
              (selected_paths files directory filepath)
              {| imported := 0; errors := []; objects := [];
                 mat_cache := ∅; bpy_materials := db |}) as (H1 & H2 & _).
  cbv zeta in H1, H2. cbn [errors imported app] in H1, H2. rewrite H1.
  assert (L : length (selected_paths files directory filepath) = Nat.max 1 (length files)).
  { destruct files as [|f files]; [reflexivity|].
    unfold selected_paths. rewrite length_fmap. cbn [length]. lia. }
  lia.
Qed.

Lemma batch_step_objects b path :
  let b1 := batch_step unique_name rejects fs scale axis_up b path in
  (positions ∘ linked_ob) <$> objects b1
  = ((positions ∘ linked_ob) <$> objects b)
    ++ ((fun g => (fun p => verts_new (scale_vec scale p)) <$> verts g)
        <$> built_models fs [path])
  /\ (Forall (fun o => rotation_euler_x o
                       = match axis_up with
                         | Y_up => (-0x1.921fb6p+0)%float
                         | Z_up => 0%float
                         end) (objects b) ->
      Forall (fun o => rotation_euler_x o
                       = match axis_up with
                         | Y_up => (-0x1.921fb6p+0)%float
                         | Z_up => 0%float
                         end) (objects b1)).
Proof.
  cbv zeta. unfold batch_step, import_file, built_models, parsed_models.
  cbn [omap list_omap].
  destruct (fs path) as [content|]; cbn [List.filter fmap list_fmap];
    [|rewrite app_nil_r; tauto].
  destruct (parse_geo_classic path content) as [g|e]; cbn [List.filter fmap list_fmap];
    [|rewrite app_nil_r; tauto].
  pose proof (fst_build_mesh unique_name rejects g scale (mat_cache b) (bpy_materials b)) as H.
  cbv zeta in H. cbn [fst snd].
  destruct (build_mesh unique_name rejects g scale (mat_cache b) (bpy_materials b))
    as [r [cache' db']]. cbn [fst] in H. subst r.
  destruct (forallb (face_ok (verts g)) (faces g)); cbn [objects fmap list_fmap].
  - split.
    + rewrite fmap_app. reflexivity.
    + intros HF. apply Forall_app. split; [assumption|].
      constructor; [|constructor]. cbn [rotation_euler_x].
      destruct axis_up; [reflexivity | vm_compute; reflexivity].
  - rewrite app_nil_r. tauto.
Qed.

Lemma built_models_cons path paths :
  built_models fs (path :: paths) = built_models fs [path] ++ built_models fs paths.
Proof. unfold built_models. rewrite parsed_models_cons, List.filter_app. reflexivity. Qed.

(** X23: the objects of a batch are those of the files that were decoded
    and built, in the order of the paths: each holds the vertices of its
    model, scaled and stored in single precision; each is turned about x by
    the binary32 number nearest to -90 degrees when the up axis is Y, and
    not turned otherwise. *)
Theorem batch_objects paths db :
  let b := execute unique_name rejects fs scale axis_up paths db in
  (positions ∘ linked_ob) <$> objects b
  = (fun g => (fun p => verts_new (scale_vec scale p)) <$> verts g)
    <$> built_models fs paths
  /\ Forall (fun o => rotation_euler_x o
                      = match axis_up with
                        | Y_up => (-0x1.921fb6p+0)%float
                        | Z_up => 0%float
                        end) (objects b).
Proof.
  cbv zeta. unfold execute.
  set (b0 := {| imported := 0; errors := []; objects := [];
                mat_cache := ∅; bpy_materials := db |}).
  assert (G : forall ps b,
             let b' := fold_left (batch_step unique_name rejects fs scale axis_up) ps b in
             (positions ∘ linked_ob) <$> objects b'
             = ((positions ∘ linked_ob) <$> objects b)
               ++ ((fun g => (fun p => verts_new (scale_vec scale p)) <$> verts g)
                   <$> built_models fs ps)
             /\ (Forall (fun o => rotation_euler_x o
                                  = match axis_up with
                                    | Y_up => (-0x1.921fb6p+0)%float
                                    | Z_up => 0%float
                                    end) (objects b) ->
                 Forall (fun o => rotation_euler_x o
                                  = match axis_up with
                                    | Y_up => (-0x1.921fb6p+0)%float
                                    | Z_up => 0%float
                                    end) (objects b'))).
  { induction ps as [|p ps IH]; intros b; cbn [fold_left].
    - cbv zeta. unfold built_models, parsed_models. cbn. rewrite app_nil_r. tauto.
    - cbv zeta. destruct (IH (batch_step unique_name rejects fs scale axis_up b p)) as [I1 I2].
      destruct (batch_step_objects b p) as [S1 S2].
      split; [|auto].
      rewrite I1, S1, (built_models_cons p ps), fmap_app, app_assoc. reflexivity. }
  destruct (G paths b0) as [G1 G2]. split.
  - rewrite G1. reflexivity.
  - apply G2. constructor.
Qed.

End BatchObjects.
